(** * S3-backed authentication state (src/Utils/use-s3-auth-state.ts)

    A shallow embedding of [useS3AuthState]: the three store operations
    [writeData], [readData], [removeData], the file-name sanitiser
    [fixFileName], the signal key store [keys.get] / [keys.set] and
    [saveCreds], over an abstract S3 client.

    Definitions:
    - [Text]       JSON text, as [JSON.stringify] writes it and
                   [JSON.parse] reads it (integers, strings in UTF-8);
    - [JS]         JavaScript values, truthiness, the Buffer codec;
    - [Async]      promises: a state-and-rejection monad;
    - [S3]         the client interface, a bucket store in memory that
                   records the commands it receives, an unreachable service;
    - [AuthState]  the program;
    - [Spec]       the vocabulary of the properties.

    Proofs:
    - [TextFacts]  printed text parses back; the parser's fuel suffices;
    - [JSFacts]    the codec on the values it carries;
    - [Facts]      the store operations by the command they send;
    - the properties C1 to C10;
    - [KeyFacts], [GetFacts], [SetFacts] and the further properties X1 to
      X21: sanitising, how the store operations compose, [keys.get],
      [keys.set], initialisation.  *)

From Stdlib Require Import ZArith NArith Ascii String List Decimal DecimalN DecimalFacts Lia.
From stdpp Require Import gmap strings list.
Import ListNotations.

Local Open Scope list_scope.

(* ===================================================================== *)
(** ** JSON text *)
(* ===================================================================== *)

Module Text.

(** The syntax tree of a JSON text.  A number is an integer that
    JavaScript holds exactly: any other number is a floating-point value,
    outside the fragment modelled here.  An object keeps its members in
    textual order, duplicates included. *)
#[local] Unset Elimination Schemes.
Inductive json : Type :=
| JNull
| JBool (b : bool)
| JNum (n : Z)
| JStr (s : string)
| JArr (elems : list json)
| JObj (members : list (string * json)).
#[local] Set Elimination Schemes.

(** Characters with a syntactic role. *)
Definition dquote : ascii := "034"%char.
Definition backslash : ascii := "092"%char.
Definition chr (s : string) : ascii :=
  match s with String c _ => c | EmptyString => "000"%char end.

Abbreviation text := (list ascii).

Definition lit (s : string) : text := list_ascii_of_string s.

(** *** Printing: [JSON.stringify] without indentation *)

Definition hex_digit (n : N) : ascii :=
  ascii_of_N (if (n <? 10)%N then 48 + n else 87 + n)%N.

(** QuoteJSONString, one byte of the text in UTF-8: the characters of
    more than one byte are written as they are. *)
Definition quote_char (c : ascii) : text :=
  if Ascii.eqb c dquote then [backslash; dquote]
  else if Ascii.eqb c backslash then [backslash; backslash]
  else if Ascii.eqb c "008"%char then [backslash; chr "b"]
  else if Ascii.eqb c "012"%char then [backslash; chr "f"]
  else if Ascii.eqb c "010"%char then [backslash; chr "n"]
  else if Ascii.eqb c "013"%char then [backslash; chr "r"]
  else if Ascii.eqb c "009"%char then [backslash; chr "t"]
  else if (N_of_ascii c <? 32)%N then
    [backslash; chr "u"; chr "0"; chr "0";
     hex_digit (N_of_ascii c / 16); hex_digit (N_of_ascii c mod 16)]
  else [c].

Fixpoint quote_body (s : string) : text :=
  match s with
  | EmptyString => []
  | String c s' => quote_char c ++ quote_body s'
  end.

Definition quote (s : string) : text := dquote :: quote_body s ++ [dquote].

Definition digit_char (d : N) : ascii := ascii_of_N (48 + d).

Fixpoint print_uint (d : uint) : text :=
  match d with
  | Nil => []
  | D0 d => digit_char 0 :: print_uint d
  | D1 d => digit_char 1 :: print_uint d
  | D2 d => digit_char 2 :: print_uint d
  | D3 d => digit_char 3 :: print_uint d
  | D4 d => digit_char 4 :: print_uint d
  | D5 d => digit_char 5 :: print_uint d
  | D6 d => digit_char 6 :: print_uint d
  | D7 d => digit_char 7 :: print_uint d
  | D8 d => digit_char 8 :: print_uint d
  | D9 d => digit_char 9 :: print_uint d
  end.

Definition print_int (z : Z) : text :=
  match z with
  | Z0 => [chr "0"]
  | Zpos p => print_uint (N.to_uint (Npos p))
  | Zneg p => chr "-" :: print_uint (N.to_uint (Npos p))
  end.

(** Items separated by commas, then the closing bracket. *)
Fixpoint commas (close : ascii) (items : list text) : text :=
  match items with
  | [] => [close]
  | [t] => t ++ [close]
  | t :: ts => t ++ chr "," :: commas close ts
  end.

Fixpoint print (j : json) : text :=
  match j with
  | JNull => lit "null"
  | JBool true => lit "true"
  | JBool false => lit "false"
  | JNum n => print_int n
  | JStr s => quote s
  | JArr l => chr "[" :: commas (chr "]") (map print l)
  | JObj o =>
      chr "{" :: commas (chr "}")
                   (map (fun m => quote (fst m) ++ chr ":" :: print (snd m)) o)
  end.

Definition print_member (m : string * json) : text :=
  quote (fst m) ++ chr ":" :: print (snd m).

(** *** Parsing: the grammar of [JSON.parse] *)

(** What reading a prefix of a text gives: a result and the rest of the
    text; or the verdict that the text is not JSON; or that it leaves the
    fragment modelled here (a number that is not an integer JavaScript
    holds exactly, an escaped surrogate without its partner); or that the
    fuel ran out. *)
Inductive outcome (A : Type) : Type :=
| Parsed (a : A) (rest : text)
| Malformed
| Unsupported
| Exhausted.
Arguments Parsed {A} a rest.
Arguments Malformed {A}.
Arguments Unsupported {A}.
Arguments Exhausted {A}.

Definition and_then {A B} (o : outcome A) (k : A -> text -> outcome B) : outcome B :=
  match o with
  | Parsed a r => k a r
  | Malformed => Malformed
  | Unsupported => Unsupported
  | Exhausted => Exhausted
  end.

Definition is_ws (c : ascii) : bool :=
  Ascii.eqb c " "%char || Ascii.eqb c "009"%char
  || Ascii.eqb c "010"%char || Ascii.eqb c "013"%char.

Fixpoint skip_ws (s : text) : text :=
  match s with
  | c :: r => if is_ws c then skip_ws r else s
  | [] => []
  end.

Definition is_digit (c : ascii) : bool :=
  (48 <=? N_of_ascii c)%N && (N_of_ascii c <=? 57)%N.

Fixpoint span_digits (s : text) : text * text :=
  match s with
  | c :: r =>
      if is_digit c then let (ds, r') := span_digits r in (c :: ds, r')
      else ([], s)
  | [] => ([], [])
  end.

Fixpoint uint_of_digits (ds : text) : uint :=
  match ds with
  | [] => Nil
  | c :: r =>
      let u := uint_of_digits r in
      match (N_of_ascii c - 48)%N with
      | 0 => D0 u | 1 => D1 u | 2 => D2 u | 3 => D3 u | 4 => D4 u
      | 5 => D5 u | 6 => D6 u | 7 => D7 u | 8 => D8 u | _ => D9 u
      end%N
  end.

(** What goes on with a number: a further digit, a fraction or an
    exponent. *)
Definition continues_number (s : text) : bool :=
  match s with
  | c :: _ =>
      is_digit c || Ascii.eqb c (chr ".") || Ascii.eqb c (chr "e")
      || Ascii.eqb c (chr "E")
  | [] => false
  end.

(** The integers JavaScript numbers hold exactly. *)
Definition safe_integer (n : Z) : bool := (Z.abs n <=? 9007199254740991)%Z.

(** frac = "." digits: the digits, none when there is no fraction. *)
Definition parse_frac (s : text) : outcome text :=
  match s with
  | c :: r =>
      if Ascii.eqb c (chr ".") then
        match span_digits r with
        | ([], _) => Malformed
        | (ds, r') => Parsed ds r'
        end
      else Parsed [] s
  | [] => Parsed [] []
  end.

(** exp = ("e" | "E") ("-" | "+")? digits: the exponent, 0 when there is
    none. *)
Definition parse_exp (s : text) : outcome Z :=
  match s with
  | c :: r =>
      if Ascii.eqb c (chr "e") || Ascii.eqb c (chr "E") then
        let (negative, r1) :=
          match r with
          | c1 :: r1 =>
              if Ascii.eqb c1 (chr "-") then (true, r1)
              else if Ascii.eqb c1 (chr "+") then (false, r1)
              else (false, r)
          | [] => (false, r)
          end in
        match span_digits r1 with
        | ([], _) => Malformed
        | (ds, r2) =>
            let e := Z.of_N (N.of_uint (uint_of_digits ds)) in
            Parsed (if negative then (- e)%Z else e) r2
        end
      else Parsed 0%Z s
  | [] => Parsed 0%Z []
  end.

(** [m * 10 ^ e] for [m] written with [digits] digits, when that is an
    integer.  An exponent above 16 is given up: the product is then beyond
    the integers JavaScript holds exactly. *)
Definition scale (m : N) (digits : nat) (e : Z) : option N :=
  if (m =? 0)%N then Some 0%N
  else if (0 <=? e)%Z then
    if (e <=? 16)%Z then Some (m * 10 ^ Z.to_N e)%N else None
  else
    let k := Z.to_N (- e) in
    if (k <=? N.of_nat digits)%N then
      if (m mod 10 ^ k =? 0)%N then Some (m / 10 ^ k)%N else None
    else None.

(** number = int frac? exp? with int = "0" | digit1-9 digits, read after
    the optional sign: its value, when that is an integer JavaScript holds
    exactly (-0 is not told apart from 0). *)
Definition parse_nat (s : text) : outcome N :=
  let (ds, r) := span_digits s in
  match ds with
  | [] => Malformed
  | c :: ds' =>
      if Ascii.eqb c (chr "0") && negb (Nat.eqb (length ds') 0) then Malformed
      else
        and_then (parse_frac r) (fun fs r1 =>
        and_then (parse_exp r1) (fun e r2 =>
          match scale (N.of_uint (uint_of_digits (ds ++ fs))) (length (ds ++ fs))
                      (e - Z.of_nat (length fs)) with
          | Some n => if (n <=? 9007199254740991)%N then Parsed n r2 else Unsupported
          | None => Unsupported
          end))
  end.

Definition parse_int (s : text) : outcome Z :=
  match s with
  | c :: r =>
      if Ascii.eqb c (chr "-") then
        and_then (parse_nat r) (fun n r' => Parsed (Z.opp (Z.of_N n)) r')
      else
        and_then (parse_nat s) (fun n r' => Parsed (Z.of_N n) r')
  | [] => Malformed
  end.

Definition hex_value (c : ascii) : option N :=
  let n := N_of_ascii c in
  if is_digit c then Some (n - 48)%N
  else if (97 <=? n)%N && (n <=? 102)%N then Some (n - 87)%N
  else if (65 <=? n)%N && (n <=? 70)%N then Some (n - 55)%N
  else None.

(** The UTF-8 bytes of a code point below 65536. *)
Definition utf8 (n : N) : string :=
  if (n <? 128)%N then String (ascii_of_N n) EmptyString
  else if (n <? 2048)%N then
    String (ascii_of_N (192 + n / 64))
      (String (ascii_of_N (128 + n mod 64)) EmptyString)
  else
    String (ascii_of_N (224 + n / 4096))
      (String (ascii_of_N (128 + (n / 64) mod 64))
         (String (ascii_of_N (128 + n mod 64)) EmptyString)).

(** The UTF-8 bytes of the code point a surrogate pair stands for. *)
Definition utf8_pair (high low : N) : string :=
  let n := (65536 + (high - 55296) * 1024 + (low - 56320))%N in
  String (ascii_of_N (240 + n / 262144))
    (String (ascii_of_N (128 + (n / 4096) mod 64))
       (String (ascii_of_N (128 + (n / 64) mod 64))
          (String (ascii_of_N (128 + n mod 64)) EmptyString))).

Definition is_high_surrogate (n : N) : bool := ((55296 <=? n) && (n <=? 56319))%N.
Definition is_low_surrogate (n : N) : bool := ((56320 <=? n) && (n <=? 57343))%N.

(** The code unit of a four-digit escape. *)
Definition unicode_escape (h1 h2 h3 h4 : ascii) : option N :=
  match hex_value h1, hex_value h2, hex_value h3, hex_value h4 with
  | Some a, Some b, Some c, Some d => Some (4096 * a + 256 * b + 16 * c + d)%N
  | _, _, _, _ => None
  end.

Definition simple_escape (e : ascii) : option ascii :=
  if Ascii.eqb e dquote then Some dquote
  else if Ascii.eqb e backslash then Some backslash
  else if Ascii.eqb e (chr "/") then Some (chr "/")
  else if Ascii.eqb e (chr "b") then Some "008"%char
  else if Ascii.eqb e (chr "f") then Some "012"%char
  else if Ascii.eqb e (chr "n") then Some "010"%char
  else if Ascii.eqb e (chr "r") then Some "013"%char
  else if Ascii.eqb e (chr "t") then Some "009"%char
  else None.

Definition cons_char (c : ascii) (p : outcome string) : outcome string :=
  and_then p (fun s r => Parsed (String c s) r).

Definition cons_chars (u : string) (p : outcome string) : outcome string :=
  and_then p (fun s r => Parsed (append u s) r).

(** The characters of a string, read after the opening quote up to and
    including the closing one.  An escaped high surrogate followed by an
    escaped low one is the character of the pair; a surrogate without its
    partner makes a string that has no UTF-8 form, outside the fragment. *)
Fixpoint parse_chars (s : text) : outcome string :=
  match s with
  | [] => Malformed
  | c :: r =>
      if Ascii.eqb c dquote then Parsed EmptyString r
      else if Ascii.eqb c backslash then
        match r with
        | [] => Malformed
        | e :: r1 =>
            if Ascii.eqb e (chr "u") then
              match r1 with
              | h1 :: h2 :: h3 :: h4 :: r2 =>
                  match unicode_escape h1 h2 h3 h4 with
                  | Some n =>
                      if is_high_surrogate n then
                        match r2 with
                        | b :: u :: l1 :: l2 :: l3 :: l4 :: r3 =>
                            if Ascii.eqb b backslash && Ascii.eqb u (chr "u") then
                              match unicode_escape l1 l2 l3 l4 with
                              | Some m =>
                                  if is_low_surrogate m
                                  then cons_chars (utf8_pair n m) (parse_chars r3)
                                  else Unsupported
                              | None => Unsupported
                              end
                            else Unsupported
                        | _ => Unsupported
                        end
                      else if is_low_surrogate n then Unsupported
                      else cons_chars (utf8 n) (parse_chars r2)
                  | None => Malformed
                  end
              | _ => Malformed
              end
            else
              match simple_escape e with
              | Some u => cons_char u (parse_chars r1)
              | None => Malformed
              end
        end
      else if (N_of_ascii c <? 32)%N then Malformed
      else cons_char c (parse_chars r)
  end.

Fixpoint strip_prefix (w s : text) : option text :=
  match w, s with
  | [], _ => Some s
  | c :: w', c' :: s' => if Ascii.eqb c c' then strip_prefix w' s' else None
  | _ :: _, [] => None
  end.

Definition expect (word : string) (s : text) (j : json) : outcome json :=
  match strip_prefix (lit word) s with
  | Some r => Parsed j r
  | None => Malformed
  end.

Section Parser.
Variable parse_value : text -> outcome json.

(** After a value of an array: "," and the next values, or "]". *)
Definition after_element (continue : text -> outcome (list json))
    (x : json) (r : text) : outcome (list json) :=
  match skip_ws r with
  | c :: r' =>
      if Ascii.eqb c (chr ",") then
        and_then (continue r') (fun xs r'' => Parsed (x :: xs) r'')
      else if Ascii.eqb c (chr "]") then Parsed [x] r'
      else Malformed
  | [] => Malformed
  end.

(** elements = value ( "," value )* "]" *)
Fixpoint parse_elements (fuel : nat) (s : text) : outcome (list json) :=
  match fuel with
  | O => Exhausted
  | S fuel' => and_then (parse_value s) (after_element (parse_elements fuel'))
  end.

(** After a member of an object: "," and the next members, or "}". *)
Definition after_member (continue : text -> outcome (list (string * json)))
    (k : string) (x : json) (r : text) : outcome (list (string * json)) :=
  match skip_ws r with
  | c :: r' =>
      if Ascii.eqb c (chr ",") then
        and_then (continue r') (fun ms r'' => Parsed ((k, x) :: ms) r'')
      else if Ascii.eqb c (chr "}") then Parsed [(k, x)] r'
      else Malformed
  | [] => Malformed
  end.

(** member = string ":" value, up to the value. *)
Definition parse_member (s : text) : outcome (string * json) :=
  match skip_ws s with
  | q :: r0 =>
      if Ascii.eqb q dquote then
        and_then (parse_chars r0) (fun k r1 =>
          match skip_ws r1 with
          | c :: r2 =>
              if Ascii.eqb c (chr ":") then
                and_then (parse_value r2) (fun x r3 => Parsed (k, x) r3)
              else Malformed
          | [] => Malformed
          end)
      else Malformed
  | [] => Malformed
  end.

(** members = member ( "," member )* "}" *)
Fixpoint parse_members (fuel : nat) (s : text) : outcome (list (string * json)) :=
  match fuel with
  | O => Exhausted
  | S fuel' =>
      and_then (parse_member s)
        (fun m => after_member (parse_members fuel') (fst m) (snd m))
  end.
End Parser.

Fixpoint parse_value (fuel : nat) (s : text) : outcome json :=
  match fuel with
  | O => Exhausted
  | S fuel' =>
      match skip_ws s with
      | [] => Malformed
      | c :: r =>
          if Ascii.eqb c (chr "n") then expect "ull" r JNull
          else if Ascii.eqb c (chr "t") then expect "rue" r (JBool true)
          else if Ascii.eqb c (chr "f") then expect "alse" r (JBool false)
          else if Ascii.eqb c dquote then
            and_then (parse_chars r) (fun s' r' => Parsed (JStr s') r')
          else if Ascii.eqb c (chr "[") then
            match skip_ws r with
            | c' :: r' =>
                if Ascii.eqb c' (chr "]") then Parsed (JArr []) r'
                else
                  and_then (parse_elements (parse_value fuel') fuel' r)
                           (fun xs r'' => Parsed (JArr xs) r'')
            | [] => Malformed
            end
          else if Ascii.eqb c (chr "{") then
            match skip_ws r with
            | c' :: r' =>
                if Ascii.eqb c' (chr "}") then Parsed (JObj []) r'
                else
                  and_then (parse_members (parse_value fuel') fuel' r)
                           (fun ms r'' => Parsed (JObj ms) r'')
            | [] => Malformed
            end
          else
            and_then (parse_int (c :: r)) (fun n r' => Parsed (JNum n) r')
      end
  end.

(** A whole text: one value, then nothing but white space.  Every level of
    nesting and every element takes a character, so more fuel than the
    text has characters never runs out ([parse_never_exhausted]). *)
Definition parse (s : text) : outcome json :=
  and_then (parse_value (S (length s)) s)
    (fun j r => match skip_ws r with [] => Parsed j [] | _ :: _ => Malformed end).

(** *** Induction and measures on syntax trees *)

Section json_induction.
Variable P : json -> Prop.
Hypothesis Hnull : P JNull.
Hypothesis Hbool : forall b, P (JBool b).
Hypothesis Hnum : forall n, P (JNum n).
Hypothesis Hstr : forall s, P (JStr s).
Hypothesis Harr : forall l, Forall P l -> P (JArr l).
Hypothesis Hobj : forall o, Forall (fun m => P (snd m)) o -> P (JObj o).

Fixpoint json_ind (j : json) : P j :=
  match j with
  | JNull => Hnull
  | JBool b => Hbool b
  | JNum n => Hnum n
  | JStr s => Hstr s
  | JArr l =>
      Harr l ((fix go (l : list json) : Forall P l :=
                 match l with
                 | [] => List.Forall_nil P
                 | x :: l' => List.Forall_cons P x l' (json_ind x) (go l')
                 end) l)
  | JObj o =>
      Hobj o ((fix go (o : list (string * json)) : Forall (fun m => P (snd m)) o :=
                 match o with
                 | [] => List.Forall_nil _
                 | m :: o' => List.Forall_cons _ m o' (json_ind (snd m)) (go o')
                 end) o)
  end.
End json_induction.

(** Every number of the tree is one JavaScript holds exactly. *)
Fixpoint exact (j : json) : bool :=
  match j with
  | JNum n => safe_integer n
  | JArr l => forallb exact l
  | JObj o => forallb (fun m => exact (snd m)) o
  | _ => true
  end.

(** Number of nodes: the fuel a tree needs. *)
Fixpoint size (j : json) : nat :=
  match j with
  | JArr l => S (list_sum (map size l))
  | JObj o => S (list_sum (map (fun m => size (snd m)) o))
  | _ => 1
  end.
(** A numeral as [JSON.stringify] writes it: no leading zero. *)
Definition canonical (d : uint) : Prop :=
  match d with
  | Nil => False
  | D0 Nil => True
  | D0 _ => False
  | _ => True
  end.
(** Where a printed value starts: never white space, never a closing
    bracket. *)
Definition opens_value (c : ascii) : Prop :=
  is_ws c = false /\ Ascii.eqb c (chr "]") = false /\ Ascii.eqb c (chr "}") = false.

(** An outcome on the text [s] that either consumed some of it or gave a
    verdict: it neither stands still nor is it out of fuel. *)
Definition advances {A} (s : text) (o : outcome A) : Prop :=
  match o with
  | Parsed _ r => length r < length s
  | Exhausted => False
  | Malformed | Unsupported => True
  end.

(** [pv] reads back the printed form of [x], whatever delimiter follows. *)
Definition reads (pv : text -> outcome json) (x : json) : Prop :=
  forall rest, continues_number rest = false -> pv (print x ++ rest) = Parsed x rest.

End Text.

Module JS.
Import Text.

Local Open Scope string_scope.
Local Open Scope list_scope.

(** The values that travel through the store.  A number is an integer
    (no NaN, no fraction, -0 not told apart from 0); a string is held
    as its UTF-8 bytes (a string with a lone surrogate has none);
    [VBuf] is a Buffer / Uint8Array; an object is the list of its own
    enumerable properties in enumeration order. *)
#[local] Unset Elimination Schemes.
Inductive value : Type :=
| VUndefined
| VNull
| VBool (b : bool)
| VNum (n : Z)
| VStr (s : string)
| VBuf (bytes : list Byte.byte)
| VArr (elems : list value)
| VObj (props : list (string * value)).
#[local] Set Elimination Schemes.

Section value_induction.
Variable P : value -> Prop.
Hypothesis Hundef : P VUndefined.
Hypothesis Hnull : P VNull.
Hypothesis Hbool : forall b, P (VBool b).
Hypothesis Hnum : forall n, P (VNum n).
Hypothesis Hstr : forall s, P (VStr s).
Hypothesis Hbuf : forall bs, P (VBuf bs).
Hypothesis Harr : forall l, Forall P l -> P (VArr l).
Hypothesis Hobj : forall o, Forall (fun p => P (snd p)) o -> P (VObj o).

Fixpoint value_ind (v : value) : P v :=
  match v with
  | VUndefined => Hundef
  | VNull => Hnull
  | VBool b => Hbool b
  | VNum n => Hnum n
  | VStr s => Hstr s
  | VBuf bs => Hbuf bs
  | VArr l =>
      Harr l ((fix go (l : list value) : Forall P l :=
                 match l with
                 | [] => List.Forall_nil P
                 | x :: l' => List.Forall_cons P x l' (value_ind x) (go l')
                 end) l)
  | VObj o =>
      Hobj o ((fix go (o : list (string * value)) : Forall (fun p => P (snd p)) o :=
                 match o with
                 | [] => List.Forall_nil _
                 | p :: o' => List.Forall_cons _ p o' (value_ind (snd p)) (go o')
                 end) o)
  end.
End value_induction.

(** What a rejected promise or a [throw] carries.  [Unmodelled] is not an
    error of the program: it marks a step outside what is modelled here (a
    text outside the fragment of JSON, an assignment under a prototype that
    is a byte sequence), on which the model is silent. *)
Inductive error : Type :=
| SyntaxError
| TypeError
| ServiceException (name : string)
| Unmodelled.

Inductive result (A : Type) : Type :=
| Ok (a : A)
| Err (e : error).
Arguments Ok {A} a.
Arguments Err {A} e.

(** ToBoolean: the test behind [v ? a : b], [v || d] and [x && v]. *)
Definition ToBoolean (v : value) : bool :=
  match v with
  | VUndefined | VNull => false
  | VBool b => b
  | VNum n => negb (n =? 0)%Z
  | VStr s => negb (String.eqb s "")
  | VBuf _ | VArr _ | VObj _ => true
  end.

(** [o[k]] on own properties. *)
Fixpoint get_prop {A} (k : string) (o : list (string * A)) : option A :=
  match o with
  | [] => None
  | (k', x) :: o' => if String.eqb k k' then Some x else get_prop k o'
  end.

(** [o[k] = x]: an existing property keeps its place, a new one goes last. *)
Fixpoint define {A} (k : string) (x : A) (o : list (string * A)) : list (string * A) :=
  match o with
  | [] => [(k, x)]
  | (k', y) :: o' => if String.eqb k k' then (k, x) :: o' else (k', y) :: define k x o'
  end.

Definition build_object {A} (members : list (string * A)) : list (string * A) :=
  fold_left (fun o m => define (fst m) (snd m) o) members [].

(** *** The Buffer codec *)

Definition byte_value (b : Byte.byte) : value := VNum (Z.of_N (Byte.to_N b)).

Definition value_byte (v : value) : option Byte.byte :=
  match v with
  | VNum n => if (0 <=? n)%Z then Byte.of_N (Z.to_N n) else None
  | _ => None
  end.

Fixpoint bytes_of (l : list value) : option (list Byte.byte) :=
  match l with
  | [] => Some []
  | x :: l' =>
      match value_byte x, bytes_of l' with
      | Some b, Some bs => Some (b :: bs)
      | _, _ => None
      end
  end.

(** The tagged form of a byte sequence. *)
Definition tagged (bs : list Byte.byte) : value :=
  VObj [("type", VStr "Buffer"); ("data", VArr (map byte_value bs))].

(** Modelled from the spec: [BufferJSON.replacer] (src/Utils/generics.ts is
    not among the sources).  "Any binary byte sequence is encoded as
    {type: Buffer, data: [byte, ...]}"; every other value passes. *)
Definition BufferJSON_replacer (v : value) : value :=
  match v with
  | VBuf bs => tagged bs
  | _ => v
  end.

(** The bytes of an object of the tagged form, if it has that form. *)
Definition as_buffer (o : list (string * value)) : option (list Byte.byte) :=
  match get_prop "type" o, get_prop "data" o with
  | Some (VStr t), Some (VArr l) => if String.eqb t "Buffer" then bytes_of l else None
  | _, _ => None
  end.

(** Modelled from the spec: [BufferJSON.reviver] (src/Utils/generics.ts is
    not among the sources).  An object of the tagged form "must be decoded
    back to raw bytes"; every other value passes. *)
Definition BufferJSON_reviver (v : value) : value :=
  match v with
  | VObj o => match as_buffer o with Some bs => VBuf bs | None => v end
  | _ => v
  end.

(** *** JSON.stringify(value, BufferJSON.replacer) *)

Definition or_null (j : option json) : json :=
  match j with Some j => j | None => JNull end.

Definition keep_defined {A} (k : string) (x : option A) : list (string * A) :=
  match x with Some x => [(k, x)] | None => [] end.

(** All the values of a list, when none is missing. *)
Fixpoint all_defined {A} (l : list (option A)) : option (list A) :=
  match l with
  | [] => Some []
  | x :: l' =>
      match x, all_defined l' with
      | Some a, Some l'' => Some (a :: l'')
      | _, _ => None
      end
  end.

(** The indexed properties of a byte sequence, as an object without the
    tagged form would be written. *)
Fixpoint indexed (i : N) (bs : list Byte.byte) : list (string * json) :=
  match bs with
  | [] => []
  | b :: bs' =>
      (string_of_list_ascii (print_uint (N.to_uint i)), JNum (Z.of_N (Byte.to_N b)))
      :: indexed (N.succ i) bs'
  end.

Section Stringify.
Variable replacer : value -> value.

(** SerializeJSONProperty: the replacer is called on the value of the
    property, and what it returns is written by its type; the elements of
    an array and the properties of an object go through the same steps.
    The inner [None] is JavaScript's [undefined]: such a property is left
    out of an object and written as null in an array.  [fuel] bounds the
    nesting of what the replacer returns; the outer [None] is running out
    of it. *)
Fixpoint SerializeJSONProperty (fuel : nat) (v : value) : option (option json) :=
  match fuel with
  | O => None
  | S fuel' =>
      match replacer v with
      | VUndefined => Some None
      | VNull => Some (Some JNull)
      | VBool b => Some (Some (JBool b))
      | VNum n => Some (Some (JNum n))
      | VStr s => Some (Some (JStr s))
      | VBuf bs => Some (Some (JObj (indexed 0 bs)))
      | VArr l =>
          match all_defined (map (SerializeJSONProperty fuel') l) with
          | Some js => Some (Some (JArr (map or_null js)))
          | None => None
          end
      | VObj o =>
          match all_defined (map (fun p => SerializeJSONProperty fuel' (snd p)) o) with
          | Some js =>
              Some (Some (JObj (flat_map (fun m => keep_defined (fst (fst m)) (snd m))
                                         (combine o js))))
          | None => None
          end
      end
  end.
End Stringify.

(** How deep arrays and objects nest in a value. *)
Fixpoint depth (v : value) : nat :=
  match v with
  | VArr l => S (list_max (map depth l))
  | VObj o => S (list_max (map (fun p => depth (snd p)) o))
  | _ => O
  end.

(** [JSON.stringify(v, BufferJSON.replacer)]: the text, or [None] for
    [undefined].  The tagged form the replacer gives a byte sequence nests
    three deep, whence the fuel. *)
Definition JSON_stringify (v : value) : option string :=
  match SerializeJSONProperty BufferJSON_replacer (depth v + 3) v with
  | Some (Some j) => Some (string_of_list_ascii (print j))
  | _ => None
  end.

(** What [JSON_stringify] writes, by recursion on the value: a byte
    sequence as the tagged form the replacer gives it, everything else by
    its type ([SerializeJSONProperty_written]). *)
Fixpoint written (v : value) : option json :=
  match v with
  | VUndefined => None
  | VNull => Some JNull
  | VBool b => Some (JBool b)
  | VNum n => Some (JNum n)
  | VStr s => Some (JStr s)
  | VBuf bs =>
      Some (JObj [("type", JStr "Buffer");
                  ("data", JArr (map (fun b => JNum (Z.of_N (Byte.to_N b))) bs))])
  | VArr l => Some (JArr (map (fun x => or_null (written x)) l))
  | VObj o =>
      Some (JObj (flat_map (fun p => keep_defined (fst p) (written (snd p))) o))
  end.

(** *** JSON.parse(text, reviver) *)

Definition is_undefined (v : value) : bool :=
  match v with VUndefined => true | _ => false end.

(** InternalizeJSONProperty: children first, then the holder itself; a
    property revived to [undefined] is deleted. *)
Fixpoint InternalizeJSONProperty (reviver : value -> value) (j : json) : value :=
  reviver
    match j with
    | JNull => VNull
    | JBool b => VBool b
    | JNum n => VNum n
    | JStr s => VStr s
    | JArr l => VArr (map (InternalizeJSONProperty reviver) l)
    | JObj o =>
        VObj (List.filter (fun p => negb (is_undefined (snd p)))
                (build_object
                   (map (fun m => (fst m, InternalizeJSONProperty reviver (snd m))) o)))
    end.

Definition JSON_parse (s : string) (reviver : value -> value) : result value :=
  match parse (list_ascii_of_string s) with
  | Parsed j _ => Ok (InternalizeJSONProperty reviver j)
  | Malformed => Err SyntaxError
  | Unsupported | Exhausted => Err Unmodelled
  end.

(** *** Values the codec carries *)

(** JSON-serialisable: no [undefined] anywhere, numbers exact, property
    names distinct. *)
Fixpoint serializable (v : value) : bool :=
  match v with
  | VUndefined => false
  | VNum n => safe_integer n
  | VArr l => forallb serializable l
  | VObj o =>
      bool_decide (NoDup (map fst o)) && forallb (fun p => serializable (snd p)) o
  | _ => true
  end.

(** No plain object inside [v] has the tagged form of a byte sequence. *)
Fixpoint untagged (v : value) : bool :=
  match v with
  | VArr l => forallb untagged l
  | VObj o =>
      match as_buffer o with Some _ => false | None => true end
      && forallb (fun p => untagged (snd p)) o
  | _ => true
  end.

(** Numbers exact and property names distinct, as for [serializable], but
    [undefined] may occur anywhere inside. *)
Fixpoint writable (v : value) : bool :=
  match v with
  | VNum n => safe_integer n
  | VArr l => forallb writable l
  | VObj o =>
      bool_decide (NoDup (map fst o)) && forallb (fun p => writable (snd p)) o
  | _ => true
  end.

(** The value as JSON carries it: a property that holds [undefined] is
    left out of its object, an [undefined] element of an array is null. *)
Fixpoint json_image (v : value) : value :=
  match v with
  | VArr l => VArr (map (fun x => if is_undefined x then VNull else json_image x) l)
  | VObj o =>
      VObj (flat_map (fun p => if is_undefined (snd p) then []
                               else [(fst p, json_image (snd p))]) o)
  | _ => v
  end.

(** *** Objects filled by assignment *)

(** The prototype of an object: [Object.prototype] unless replaced. *)
Inductive prototype : Type :=
| ObjectPrototype
| NullPrototype
| ValuePrototype (v : value).

(** An object created as [{}] and filled by [data[id] = value]: its own
    properties and its prototype. *)
Record JSObject := { own : gmap string value; proto : prototype }.

Definition empty_object : JSObject := {| own := ∅; proto := ObjectPrototype |}.

(** Does an object with this prototype inherit the accessor "__proto__" of
    [Object.prototype]?  Not when the chain is cut, nor when a parsed
    object on the chain has a property of that name of its own. *)
Definition inherits_proto_accessor (p : prototype) : bool :=
  match p with
  | ObjectPrototype => true
  | NullPrototype => false
  | ValuePrototype (VObj o) =>
      match get_prop "__proto__" o with Some _ => false | None => true end
  | ValuePrototype _ => true
  end.

(** [data[id] = value].  A name becomes an own property of [data], except
    "__proto__" while the accessor of that name is inherited: its setter
    replaces the prototype when the value is an object or null, does
    nothing for any other value, and creates no property.  Once a byte
    sequence is the prototype, assignment follows the rules of typed
    arrays, which are not modelled. *)
Definition assign (id : string) (v : value) (data : JSObject) : result JSObject :=
  match proto data with
  | ValuePrototype (VBuf _) => Err Unmodelled
  | _ =>
      if String.eqb id "__proto__" && inherits_proto_accessor (proto data) then
        Ok match v with
           | VNull => {| own := own data; proto := NullPrototype |}
           | VBuf _ | VArr _ | VObj _ => {| own := own data; proto := ValuePrototype v |}
           | _ => data
           end
      else Ok {| own := <[id := v]> (own data); proto := proto data |}
  end.
End JS.

(* ===================================================================== *)
(** ** Promises *)
(* ===================================================================== *)

Module Async.
Import JS.

(** An asynchronous computation against a world [C] (the storage client
    and the service behind it): it leaves a world and either a value or a
    rejection.  Operations are run to completion one after the other, in
    the order in which the program starts them.  This is one of the
    schedules the program admits: operations under one lock name run in
    that order under all of them, operations under different names may
    overlap and end in any order.  What is proved of several operations in
    flight together is therefore stated on what every schedule yields: the
    outcome of each operation, the objects left in a store, and the
    commands sent up to their order. *)
Definition promise (C A : Type) : Type := C -> C * result A.

Section Promise.
Context {C : Type}.

Definition resolve {A} (a : A) : promise C A := fun c => (c, Ok a).

Definition of_result {A} (r : result A) : promise C A := fun c => (c, r).

(** [await m] and go on with [k]; a rejection skips [k]. *)
Definition bind {A B} (m : promise C A) (k : A -> promise C B) : promise C B :=
  fun c =>
    match m c with
    | (c', Ok a) => k a c'
    | (c', Err e) => (c', Err e)
    end.

(** [try { return await m } catch (e) { handler e }] *)
Definition try_catch {A} (m : promise C A) (handler : error -> promise C A) : promise C A :=
  fun c =>
    match m c with
    | (c', Ok a) => (c', Ok a)
    | (c', Err e) => handler e c'
    end.

(** The outcome of every task, each run on the world the previous one
    left.  The tasks of a [Promise.all] are started before any is
    awaited: a rejection stops none of them. *)
Fixpoint settle {A} (tasks : list (promise C A)) (c : C) : C * list (result A) :=
  match tasks with
  | [] => (c, [])
  | t :: ts =>
      let (c1, r) := t c in
      let (c2, rs) := settle ts c1 in
      (c2, r :: rs)
  end.

(** All values if every outcome is one, else the first rejection. *)
Fixpoint gather {A} (rs : list (result A)) : result (list A) :=
  match rs with
  | [] => Ok []
  | Err e :: _ => Err e
  | Ok a :: rs' =>
      match gather rs' with
      | Ok l => Ok (a :: l)
      | Err e => Err e
      end
  end.

Definition Promise_all {A} (tasks : list (promise C A)) : promise C (list A) :=
  fun c => let (c', rs) := settle tasks c in (c', gather rs).

(** [operationLock.acquire(key, fn)] of async-lock: [fn] runs once the
    lock named [key] is free and its outcome is the outcome of the call.
    The lock is created with maxPending = Infinity and no timeout, so it
    adds no rejection of its own; operations being run one after the
    other, the lock is free whenever it is asked for. *)
Definition operationLock_acquire {A} (key : string) (fn : promise C A) : promise C A := fn.
End Promise.

Notation "'await' x ⇐ m ; k" := (bind m (fun x => k))
  (at level 10, x name, m at level 100, k at level 200).

End Async.

(* ===================================================================== *)
(** ** The storage client *)
(* ===================================================================== *)

Module S3.
Import JS Async.

Local Open Scope string_scope.
Local Open Scope list_scope.

Record PutObjectInput := {
  put_Bucket : string;
  put_Key : string;
  put_Body : option string;
  put_ContentType : string }.

Record ObjectInput := { Bucket : string; Key : string }.

Inductive Command : Type :=
| PutObjectCommand (params : PutObjectInput)
| GetObjectCommand (params : ObjectInput)
| DeleteObjectCommand (params : ObjectInput).

(** The response to a command.  [Body] is present on a served GetObject;
    it holds what [transformToString] yields, which may itself fail. *)
Record Output := { Body : option (result string) }.

(** [s3Client.send]: any client, any service behaviour. *)
Class S3Client (C : Type) := { send : Command -> promise C Output }.

(** *** A bucket store in memory

    Objects by (bucket, key), strongly consistent per key, each held as
    the text of its body, and the commands received so far, oldest
    first. *)
Record Store := {
  objects : gmap (string * string) string;
  requests : list Command }.

Definition empty_store : Store := {| objects := ∅; requests := [] |}.

Definition store_send (cmd : Command) : promise Store Output :=
  fun st =>
    let log := requests st ++ [cmd] in
    match cmd with
    | PutObjectCommand p =>
        ({| objects := <[(put_Bucket p, put_Key p) := default "" (put_Body p)]> (objects st);
            requests := log |},
         Ok {| Body := None |})
    | GetObjectCommand p =>
        ({| objects := objects st; requests := log |},
         match objects st !! (Bucket p, Key p) with
         | Some body => Ok {| Body := Some (Ok body) |}
         | None => Err (ServiceException "NoSuchKey")
         end)
    | DeleteObjectCommand p =>
        ({| objects := delete (Bucket p, Key p) (objects st); requests := log |},
         Ok {| Body := None |})
    end.

#[export] Instance store_client : S3Client Store := {| send := store_send |}.

(** *** A service that cannot be reached: every command is rejected. *)
Inductive Offline : Type := offline.

#[export] Instance offline_client : S3Client Offline :=
  {| send := fun _ c => (c, Err (ServiceException "NetworkingError")) |}.

End S3.

(* ===================================================================== *)
(** ** useS3AuthState *)
(* ===================================================================== *)

Module AuthState.
Import JS Async S3.

Local Open Scope string_scope.
Local Open Scope list_scope.

(** [String.prototype.replace] with a global one-character pattern. *)
Fixpoint replace_all (c : ascii) (by_ : string) (s : string) : string :=
  match s with
  | EmptyString => EmptyString
  | String a s' =>
      if Ascii.eqb a c then by_ +:+ replace_all c by_ s'
      else String a (replace_all c by_ s')
  end.

(** [s || d] on an optional string. *)
Definition or_string (s : option string) (d : string) : string :=
  match s with
  | Some s' => if String.eqb s' "" then d else s'
  | None => d
  end.

Definition fixFileName (file : option string) : string :=
  or_string (replace_all ":" "-" <$> (replace_all "/" "__" <$> file)) "".

(** The configuration.  Its third field, [s3Config], only builds the
    client: here the client is the world [C] the promises run against. *)
Record S3Config := {
  bucket : string;
  prefix : option string }.

(** [keys.set]'s argument: category, then identifier, then value or null,
    each level in [for ... in] order. *)
Definition SignalDataSet := list (string * list (string * value)).

Section useS3AuthState.
Context {C : Type} `{S3Client C}.

(** Collaborators defined elsewhere in the repository: the credentials
    [initAuthCreds()] returns when called, and the protobuf conversion
    [proto.Message.AppStateSyncKeyData.fromObject]. *)
Variable initAuthCreds : unit -> value.
Variable fromObject : value -> result value.

Variable config : S3Config.

Definition objectKey (key : string) : string :=
  default "" (prefix config) +:+ fixFileName (Some key).

Definition writeData (data : value) (key : string) : promise C unit :=
  let objectKey := objectKey key in
  operationLock_acquire objectKey (
    let params := {| put_Bucket := bucket config;
                     put_Key := objectKey;
                     put_Body := JSON_stringify data;
                     put_ContentType := "application/json" |} in
    await _ ⇐ send (PutObjectCommand params);
    resolve tt).

(** The callback [readData] runs under the lock. *)
Definition readData_locked (objectKey : string) : promise C value :=
  let params := {| Bucket := bucket config; Key := objectKey |} in
  await response ⇐ send (GetObjectCommand params);
  await data ⇐ match Body response with
               | Some transformToString =>
                   await s ⇐ of_result transformToString; resolve (Some s)
               | None => resolve None
               end;
  match data with
  | Some s =>
      if negb (String.eqb s "") then of_result (JSON_parse s BufferJSON_reviver)
      else resolve VNull
  | None => resolve VNull
  end.

Definition readData (key : string) : promise C value :=
  try_catch
    (let objectKey := objectKey key in
     operationLock_acquire objectKey (readData_locked objectKey))
    (fun error => resolve VNull).

Definition removeData (key : string) : promise C unit :=
  try_catch
    (let objectKey := objectKey key in
     operationLock_acquire objectKey (
       let params := {| Bucket := bucket config; Key := objectKey |} in
       await _ ⇐ send (DeleteObjectCommand params);
       resolve tt))
    (fun _ => resolve tt).

(** The assignments [data[id] = value] of [keys.get], on the object
    created as [{}].  Each task makes its own once its value is there; they
    are made here in the order of the identifiers.  Where [assign] is
    modelled the order does not show: two assignments to one identifier
    carry what one stored object held, and assignments to different
    identifiers do not interfere. *)
Definition assign_all (entries : list (string * value)) : result JSObject :=
  fold_left (fun data e =>
               match data with
               | Ok data => assign (fst e) (snd e) data
               | Err error => Err error
               end) entries (Ok empty_object).

Definition keys_get (type : string) (ids : list string) : promise C JSObject :=
  await entries ⇐ Promise_all (map (fun id =>
      await value ⇐ readData (type +:+ "-" +:+ id +:+ ".json");
      await value ⇐ (if String.eqb type "app-state-sync-key" && ToBoolean value
                     then of_result (fromObject value)
                     else resolve value);
      resolve (id, value)) ids);
  of_result (assign_all entries).

(** The operations [keys.set] starts, in the order it starts them. *)
Definition keys_set_tasks (data : SignalDataSet) : list (promise C unit) :=
  flat_map (fun category =>
    map (fun entry =>
           let value := snd entry in
           let key := fst category +:+ "-" +:+ fst entry +:+ ".json" in
           if ToBoolean value then writeData value key else removeData key)
        (snd category)) data.

Definition keys_set (data : SignalDataSet) : promise C unit :=
  await _ ⇐ Promise_all (keys_set_tasks data);
  resolve tt.

Record SignalKeyStore := {
  get : string -> list string -> promise C JSObject;
  set : SignalDataSet -> promise C unit }.

Record AuthenticationState := {
  creds : value;
  keys : SignalKeyStore }.

Record Handle := {
  state : AuthenticationState;
  saveCreds : promise C unit }.

Definition useS3AuthState : promise C Handle :=
  await stored ⇐ readData "creds.json";
  let creds := if ToBoolean stored then stored else initAuthCreds tt in
  resolve {| state := {| creds := creds;
                         keys := {| get := keys_get; set := keys_set |} |};
             saveCreds := writeData creds "creds.json" |}.
End useS3AuthState.

End AuthState.

(* ===================================================================== *)
(** ** Vocabulary of the properties *)
(* ===================================================================== *)

Module Spec.
Import JS Async S3 AuthState.

Local Open Scope string_scope.
Local Open Scope list_scope.

(** Sanitising as the specification words it: every "/" is replaced with
    "__" and every ":" with "-", character by character. *)
Fixpoint sanitize (k : string) : string :=
  match k with
  | EmptyString => EmptyString
  | String c k' =>
      (if Ascii.eqb c "/" then "__"
       else if Ascii.eqb c ":" then "-"
       else String c EmptyString) +:+ sanitize k'
  end.

(** Does the character occur in the string? *)
Fixpoint occurs (c : ascii) (s : string) : bool :=
  match s with
  | EmptyString => false
  | String a s' => Ascii.eqb a c || occurs c s'
  end.

(** The logical key of a signal key record. *)
Definition signal_key (category id : string) : string :=
  category +:+ "-" +:+ id +:+ ".json".

(** The commands the three store operations send. *)
Definition put_command (config : S3Config) (data : value) (key : string) : Command :=
  PutObjectCommand {| put_Bucket := bucket config;
                      put_Key := objectKey config key;
                      put_Body := JSON_stringify data;
                      put_ContentType := "application/json" |}.

Definition get_command (config : S3Config) (key : string) : Command :=
  GetObjectCommand {| Bucket := bucket config; Key := objectKey config key |}.

Definition delete_command (config : S3Config) (key : string) : Command :=
  DeleteObjectCommand {| Bucket := bucket config; Key := objectKey config key |}.

(** Where an operation on [key] finds its object in the in-memory store. *)
Definition location (config : S3Config) (key : string) : string * string :=
  (bucket config, objectKey config key).

(** The value a body decodes to, null when it cannot be decoded.  On a body
    outside the fragment of JSON modelled ([modelled] below) this says
    nothing of the program. *)
Definition decoded (body : string) : value :=
  if negb (String.eqb body "") then
    match JSON_parse body BufferJSON_reviver with
    | Ok v => v
    | Err _ => VNull
    end
  else VNull.

(** What [readData] hands back, by the outcome of its GetObject command. *)
Definition read_value (r : result Output) : value :=
  match r with
  | Ok {| Body := Some (Ok body) |} => decoded body
  | _ => VNull
  end.

Definition is_rejected {A} (r : result A) : bool :=
  match r with Err _ => true | Ok _ => false end.

(** The triples of a [keys.set] argument, in [for ... in] order. *)
Definition triples (data : SignalDataSet) : list (string * string * value) :=
  flat_map (fun category =>
              map (fun entry => (fst category, fst entry, snd entry)) (snd category))
           data.

(** The operation [keys.set] starts for one triple. *)
Definition task_of {C} `{S3Client C} (config : S3Config)
    (t : string * string * value) : promise C unit :=
  if ToBoolean (snd t) then writeData config (snd t) (signal_key (fst (fst t)) (snd (fst t)))
  else removeData config (signal_key (fst (fst t)) (snd (fst t))).

(** The world in which the [i]-th of a list of tasks runs. *)
Definition world_before {C A} (tasks : list (promise C A)) (c : C) (i : nat) : C :=
  fst (settle (take i tasks) c).

(** The command the operation for one triple sends. *)
Definition command_of (config : S3Config) (t : string * string * value) : Command :=
  if ToBoolean (snd t) then put_command config (snd t) (signal_key (fst (fst t)) (snd (fst t)))
  else delete_command config (signal_key (fst (fst t)) (snd (fst t))).

(** The values JavaScript treats as false (within the values modelled). *)
Definition falsy_values : list value :=
  [VUndefined; VNull; VBool false; VNum 0; VStr ""].

(** The value held for [key] in the in-memory store: its body decoded,
    null when there is no object. *)
Definition stored_value (config : S3Config) (st : Store) (key : string) : value :=
  match objects st !! location config key with
  | Some body => decoded body
  | None => VNull
  end.

(** *** Sample inputs *)

Definition sample_config : S3Config :=
  {| bucket := "wa-sessions"; prefix := Some "tenant:7/" |}.

(** [{ "pre-key": { "1": {foo: "bar"}, "2": null } }] *)
Definition foo_bar : value := VObj [("foo", VStr "bar")].

Definition sample_data : SignalDataSet :=
  [("pre-key", [("1", foo_bar); ("2", VNull)])].

(** A record holding the byte sequence [0, 1, 255]. *)
Definition sender_key : value :=
  VObj [("senderKeyId", VNum 42);
        ("chain", VArr [VObj [("seed", VBuf [Byte.x00; Byte.x01; Byte.xff])]])].

(** Credentials in the shape the credential-initialisation routine gives
    them: key pairs as byte sequences, counters, flags, nested settings. *)
Definition sample_creds (seed : Byte.byte) : value :=
  VObj [("noiseKey", VObj [("private", VBuf [seed; Byte.x2a]);
                            ("public", VBuf [Byte.x05; seed])]);
        ("registrationId", VNum 1207);
        ("advSecretKey", VStr "c2VjcmV0");
        ("processedHistoryMessages", VArr []);
        ("nextPreKeyId", VNum 1);
        ("accountSettings", VObj [("unarchiveChats", VBool false)]);
        ("registered", VBool false)].

Definition store_with (config : S3Config) (key body : string) : Store :=
  {| objects := {[ location config key := body ]}; requests := [] |}.

(** *** Further vocabulary *)

(** A key that holds neither "/" nor ":". *)
Definition clean (k : string) : bool := negb (occurs "/" k) && negb (occurs ":" k).

(** How often the character occurs in the string. *)
Fixpoint count_char (c : ascii) (s : string) : nat :=
  match s with
  | EmptyString => 0
  | String a s' => (if Ascii.eqb a c then 1 else 0) + count_char c s'
  end.

(** The object a triple addresses in the in-memory store. *)
Definition triple_location (config : S3Config) (t : string * string * value) : string * string :=
  location config (signal_key (fst (fst t)) (snd (fst t))).

(** What the operation started for one triple does to the objects of the
    in-memory store: a truthy value is written, anything else removed. *)
Definition apply_triple (config : S3Config) (objs : gmap (string * string) string)
    (t : string * string * value) : gmap (string * string) string :=
  if ToBoolean (snd t) then
    <[triple_location config t := default "" (JSON_stringify (snd t))]> objs
  else delete (triple_location config t) objs.

(** What [keys.get] hands back for a value [keys.set] was given. *)
Definition kept (v : value) : value := if ToBoolean v then v else VNull.

(** A value [keys.set] can store and [keys.get] can give back: falsy (it
    is removed) or carried by the codec. *)
Definition storable (v : value) : bool :=
  negb (ToBoolean v) || (serializable v && untagged v).

(** A conversion that always throws. *)
Definition always_throws (v : value) : result value := Err TypeError.

(** A data set of two categories, with a falsy value and an identifier
    holding ":". *)
Definition two_category_data : SignalDataSet :=
  [("pre-key", [("1", foo_bar); ("2", VNum 0)]);
   ("session", [("a:b", sender_key)])].

(** What [keys.get] makes of the value read in a category: in
    "app-state-sync-key" a truthy value goes through the conversion. *)
Definition delivered (fromObject : value -> result value) (type : string) (v : value)
    : result value :=
  if String.eqb type "app-state-sync-key" && ToBoolean v then fromObject v else Ok v.

(** Is the byte between the two bounds? *)
Definition between (low high : N) (c : ascii) : bool :=
  ((low <=? N_of_ascii c) && (N_of_ascii c <=? high))%N.

(** Well-formed UTF-8: the bytes are the text of some string. *)
Fixpoint is_utf8 (s : string) : bool :=
  match s with
  | EmptyString => true
  | String c s1 =>
      if between 0 127 c then is_utf8 s1
      else
        match s1 with
        | EmptyString => false
        | String c1 s2 =>
            if between 194 223 c then between 128 191 c1 && is_utf8 s2
            else
              match s2 with
              | EmptyString => false
              | String c2 s3 =>
                  if between 224 239 c then
                    (if between 224 224 c then between 160 191 c1
                     else if between 237 237 c then between 128 159 c1
                     else between 128 191 c1)
                    && between 128 191 c2 && is_utf8 s3
                  else
                    match s3 with
                    | EmptyString => false
                    | String c3 s4 =>
                        between 240 244 c
                        && (if between 240 240 c then between 144 191 c1
                            else if between 244 244 c then between 128 143 c1
                            else between 128 191 c1)
                        && between 128 191 c2 && between 128 191 c3 && is_utf8 s4
                    end
              end
        end
  end.

(** The body is a text inside the fragment of JSON modelled: what
    [JSON_parse] gives for it is what JSON.parse gives. *)
Definition modelled (body : string) : bool :=
  is_utf8 body
  && match JSON_parse body BufferJSON_reviver with
     | Err Unmodelled => false
     | _ => true
     end.

(** So does the body stored under [key], if there is one. *)
Definition modelled_at (config : S3Config) (st : Store) (key : string) : bool :=
  match objects st !! location config key with
  | Some body => modelled body
  | None => true
  end.

(** A body from which [readData] gets nothing truthy: it is empty, or
    malformed, or the text of a falsy value. *)
Definition unreadable (body : string) : bool :=
  String.eqb body "" ||
  match JSON_parse body BufferJSON_reviver with
  | Ok v => negb (ToBoolean v)
  | Err SyntaxError => true
  | Err _ => false
  end.

(** Credentials as a routine gives them that leaves some fields unset:
    two of the properties hold [undefined]. *)
Definition fresh_creds (seed : Byte.byte) : value :=
  VObj [("noiseKey", VObj [("private", VBuf [seed; Byte.x2a]);
                            ("public", VBuf [Byte.x05; seed])]);
        ("registrationId", VNum 1207);
        ("nextPreKeyId", VNum 1);
        ("accountSettings", VObj [("unarchiveChats", VBool false)]);
        ("registered", VBool false);
        ("pairingCode", VUndefined);
        ("routingInfo", VUndefined)].

(** The scenario of a key-value map, at any category, identifiers and
    value: after [keys.set({ category: { id1: v, id2: null } })],
    [keys.get(category, [id1, id2, id3])] resolves to an object that binds
    [id1] to [v] and both [id2] and [id3] to null. *)
Definition behaves_as_map (fromObject : value -> result value) (config : S3Config)
    (category id1 id2 id3 : string) (v : value) (st : Store) : Prop :=
  exists (st1 st2 : Store) (data : JSObject),
    keys_set config [(category, [(id1, v); (id2, VNull)])] st = (st1, Ok tt)
    /\ keys_get fromObject config category [id1; id2; id3] st1 = (st2, Ok data)
    /\ own data !! id1 = Some v
    /\ own data !! id2 = Some VNull
    /\ own data !! id3 = Some VNull.

(** Falsy values of every kind among truthy ones, in two categories. *)
Definition mixed_data : SignalDataSet :=
  [("pre-key", [("1", foo_bar); ("2", VNum 0); ("3", VStr "")]);
   ("session", [("a:b", VUndefined); ("c", sender_key); ("d", VBool false)])].

End Spec.

(* ===================================================================== *)
(** ** Printed JSON text parses back *)
(* ===================================================================== *)

Module TextFacts.
Import Text.

(** Decide a comparison of two known characters. *)
Ltac eval_eqb :=
  repeat match goal with
  | |- context [Ascii.eqb ?a ?b] =>
      let v := eval vm_compute in (Ascii.eqb a b) in
      progress change (Ascii.eqb a b) with v
  end.

Lemma parse_chars_quote_char c tail :
  parse_chars (quote_char c ++ tail) = cons_char c (parse_chars tail).
Proof. destruct c as [[] [] [] [] [] [] [] []]; reflexivity. Qed.

Lemma parse_chars_quote_body s rest :
  parse_chars (quote_body s ++ dquote :: rest) = Parsed s rest.
Proof.
  induction s as [|c s IH]; simpl; [reflexivity|].
  rewrite <- app_assoc, parse_chars_quote_char, IH. reflexivity.
Qed.

Lemma nzhead_no_leading_zero d :
  match nzhead d with D0 _ => False | _ => True end.
Proof. induction d; simpl; auto. Qed.

Lemma unorm_canonical d : canonical (unorm d).
Proof.
  unfold unorm. pose proof (nzhead_no_leading_zero d) as Hz.
  destruct (nzhead d); simpl; solve [exact I | contradiction].
Qed.

Lemma to_uint_canonical n : canonical (N.to_uint n).
Proof.
  pose proof (DecimalN.Unsigned.to_of (N.to_uint n)) as H.
  rewrite DecimalN.Unsigned.of_to in H. rewrite H. apply unorm_canonical.
Qed.

Lemma span_digits_print_uint d rest :
  continues_number rest = false ->
  span_digits (print_uint d ++ rest) = (print_uint d, rest).
Proof.
  intros Hrest.
  induction d; simpl; try (rewrite IHd; reflexivity).
  destruct rest as [|c rest]; [reflexivity|]. simpl in *.
  destruct (is_digit c); [discriminate|reflexivity].
Qed.

Lemma uint_of_digits_print_uint d : uint_of_digits (print_uint d) = d.
Proof. induction d; simpl; try rewrite IHd; reflexivity. Qed.

Lemma parse_frac_none rest :
  continues_number rest = false -> parse_frac rest = Parsed [] rest.
Proof.
  destruct rest as [|c rest]; [reflexivity|]. cbn [continues_number parse_frac].
  intros Hc. apply orb_false_iff in Hc as [Hc _]. apply orb_false_iff in Hc as [Hc _].
  apply orb_false_iff in Hc as [_ ->]. reflexivity.
Qed.

Lemma parse_exp_none rest :
  continues_number rest = false -> parse_exp rest = Parsed 0%Z rest.
Proof.
  destruct rest as [|c rest]; [reflexivity|]. cbn [continues_number parse_exp].
  intros Hc. apply orb_false_iff in Hc as [Hc ->]. apply orb_false_iff in Hc as [_ ->].
  reflexivity.
Qed.

Lemma scale_unit m digits : scale m digits 0 = Some m.
Proof.
  unfold scale. destruct (N.eqb_spec m 0) as [->|_]; [reflexivity|].
  cbn. rewrite N.mul_1_r. reflexivity.
Qed.

Lemma parse_nat_print_uint d rest :
  canonical d -> continues_number rest = false ->
  (N.of_uint d <= 9007199254740991)%N ->
  parse_nat (print_uint d ++ rest) = Parsed (N.of_uint d) rest.
Proof.
  intros Hd Hrest Hsafe. unfold parse_nat.
  rewrite span_digits_print_uint by assumption.
  assert (Hnumber : and_then (parse_frac rest) (fun fs r1 =>
            and_then (parse_exp r1) (fun e r2 =>
              match scale (N.of_uint (uint_of_digits (print_uint d ++ fs)))
                          (length (print_uint d ++ fs)) (e - Z.of_nat (length fs)) with
              | Some n => if (n <=? 9007199254740991)%N then Parsed n r2 else Unsupported
              | None => Unsupported
              end))
          = Parsed (N.of_uint d) rest).
  { rewrite parse_frac_none by assumption. cbn [and_then].
    rewrite parse_exp_none by assumption. cbn [and_then length Z.of_nat Z.sub Z.opp].
    rewrite app_nil_r. change (0 + 0)%Z with 0%Z.
    rewrite scale_unit, uint_of_digits_print_uint.
    apply N.leb_le in Hsafe. rewrite Hsafe. reflexivity. }
  destruct d as [|d|d|d|d|d|d|d|d|d|d]; simpl in Hd; try contradiction;
    try (destruct d; try contradiction);
    cbn [print_uint] in *; eval_eqb;
    cbn [andb negb length Nat.eqb]; exact Hnumber.
Qed.

Lemma print_uint_head d :
  canonical d ->
  exists c t, print_uint d = c :: t /\ is_digit c = true.
Proof.
  destruct d; simpl; try contradiction; intros _; eexists _, _; split;
    reflexivity.
Qed.

Lemma is_digit_not_minus c : is_digit c = true -> Ascii.eqb c (chr "-") = false.
Proof. destruct c as [[] [] [] [] [] [] [] []]; try discriminate; reflexivity. Qed.

Lemma safe_integer_magnitude z :
  safe_integer z = true -> (Z.to_N (Z.abs z) <= 9007199254740991)%N.
Proof. unfold safe_integer. intros Hz. apply Z.leb_le in Hz. lia. Qed.

Lemma parse_int_print_int z rest :
  safe_integer z = true ->
  continues_number rest = false ->
  parse_int (print_int z ++ rest) = Parsed z rest.
Proof.
  intros Hsafe Hrest. apply safe_integer_magnitude in Hsafe.
  destruct z as [|p|p]; cbn [print_int].
  - change [chr "0"] with (print_uint (D0 Nil)). unfold parse_int.
    cbn [print_uint app]. eval_eqb.
    change (digit_char 0 :: rest) with (print_uint (D0 Nil) ++ rest).
    rewrite parse_nat_print_uint; [reflexivity|exact I|assumption|cbn; lia].
  - pose proof (to_uint_canonical (Npos p)) as Hc.
    destruct (print_uint_head _ Hc) as (c & t & Ht & Hdig).
    unfold parse_int. rewrite Ht. cbn [app].
    rewrite (is_digit_not_minus _ Hdig).
    change (c :: t ++ rest) with ((c :: t) ++ rest). rewrite <- Ht.
    rewrite parse_nat_print_uint
      by (try assumption; rewrite DecimalN.Unsigned.of_to; exact Hsafe).
    rewrite DecimalN.Unsigned.of_to. reflexivity.
  - pose proof (to_uint_canonical (Npos p)) as Hc.
    unfold parse_int. cbn [app].
    eval_eqb. cbv iota.
    rewrite parse_nat_print_uint
      by (try assumption; rewrite DecimalN.Unsigned.of_to; exact Hsafe).
    rewrite DecimalN.Unsigned.of_to. reflexivity.
Qed.
Lemma digit_opens_value c : is_digit c = true -> opens_value c.
Proof.
  destruct c as [[] [] [] [] [] [] [] []]; try discriminate; intros _;
    repeat split.
Qed.

Lemma print_int_head z :
  exists c t, print_int z = c :: t /\ (is_digit c || Ascii.eqb c (chr "-")) = true.
Proof.
  destruct z as [|p|p]; cbn [print_int].
  - eexists _, _; split; reflexivity.
  - destruct (print_uint_head _ (to_uint_canonical (Npos p))) as (c & t & -> & Hc).
    exists c, t. rewrite Hc. split; reflexivity.
  - eexists _, _; split; reflexivity.
Qed.

Lemma print_head j : exists c t, print j = c :: t /\ opens_value c.
Proof.
  destruct j as [|[]|n|s|l|o]; cbn [print];
    try (eexists _, _; split; [reflexivity|repeat split]).
  destruct (print_int_head n) as (c & t & -> & Hc). exists c, t. split; [reflexivity|].
  apply orb_true_iff in Hc as [Hc|Hc]; [apply digit_opens_value, Hc|].
  apply Ascii.eqb_eq in Hc as ->. repeat split.
Qed.

Lemma parse_value_number fuel c t :
  (is_digit c || Ascii.eqb c (chr "-")) = true ->
  parse_value (S fuel) (c :: t) =
  and_then (parse_int (c :: t)) (fun n r => Parsed (JNum n) r).
Proof.
  destruct c as [[] [] [] [] [] [] [] []]; try discriminate; intros _; reflexivity.
Qed.

Lemma size_pos j : 1 <= size j.
Proof. destruct j; simpl; lia. Qed.

Lemma size_elems_length l : length l <= list_sum (map size l).
Proof.
  induction l as [|x l IH]; simpl; [lia|]. pose proof (size_pos x). lia.
Qed.

Lemma size_elem x l : x ∈ l -> size x <= list_sum (map size l).
Proof.
  induction 1 as [x l|x y l _ IH]; simpl; lia.
Qed.

Lemma commas_one close t : commas close [t] = t ++ [close].
Proof. reflexivity. Qed.

Lemma commas_more close t u ts :
  commas close (t :: u :: ts) = t ++ chr "," :: commas close (u :: ts).
Proof. reflexivity. Qed.

Section Parser_facts.
Variable pv : text -> outcome json.

Lemma parse_elements_commas l rest fuel :
  l <> [] -> length l <= fuel -> Forall (reads pv) l ->
  parse_elements pv fuel (commas (chr "]") (map print l) ++ rest) = Parsed l rest.
Proof.
  revert fuel. induction l as [|x l IH]; intros fuel Hne Hlen Hall; [congruence|].
  apply Forall_cons in Hall as [Hx Hall].
  destruct fuel as [|fuel]; [simpl in Hlen; lia|].
  destruct l as [|y l].
  - cbn [map parse_elements]. rewrite commas_one, <- app_assoc. cbn [app].
    rewrite Hx by reflexivity. reflexivity.
  - cbn [map parse_elements]. rewrite commas_more, <- app_assoc. cbn [app].
    rewrite Hx by reflexivity.
    cbn [and_then]. unfold after_element. cbn [skip_ws].
    change (is_ws (chr ",")) with false. eval_eqb. cbv iota.
    change (print y :: map print l) with (map print (y :: l)).
    rewrite IH; [reflexivity|congruence|simpl in *; lia|assumption].
Qed.

Lemma print_member_app k x tail :
  print_member (k, x) ++ tail =
  dquote :: quote_body k ++ dquote :: chr ":" :: print x ++ tail.
Proof.
  unfold print_member, quote. cbn [fst snd app].
  rewrite <- !app_assoc. reflexivity.
Qed.

Lemma parse_member_print k x tail :
  reads pv x -> continues_number tail = false ->
  parse_member pv (print_member (k, x) ++ tail) = Parsed (k, x) tail.
Proof.
  intros Hx Htail. rewrite print_member_app. unfold parse_member. cbn [skip_ws].
  change (is_ws dquote) with false. cbv iota. eval_eqb. cbv iota.
  rewrite parse_chars_quote_body. cbn [and_then skip_ws].
  change (is_ws (chr ":")) with false. cbv iota. eval_eqb. cbv iota.
  rewrite Hx by assumption. reflexivity.
Qed.

Lemma parse_members_commas o rest fuel :
  o <> [] -> length o <= fuel -> Forall (fun m => reads pv (snd m)) o ->
  parse_members pv fuel (commas (chr "}") (map print_member o) ++ rest)
  = Parsed o rest.
Proof.
  revert fuel. induction o as [|[k x] o IH]; intros fuel Hne Hlen Hall; [congruence|].
  apply Forall_cons in Hall as [Hx Hall]. cbn [snd] in Hx.
  destruct fuel as [|fuel]; [simpl in Hlen; lia|].
  destruct o as [|m o].
  - cbn [map parse_members]. rewrite commas_one, <- app_assoc. cbn [app].
    rewrite parse_member_print by (assumption || reflexivity). reflexivity.
  - cbn [map parse_members]. rewrite commas_more, <- app_assoc. cbn [app].
    rewrite parse_member_print by (assumption || reflexivity).
    cbn [and_then fst snd]. unfold after_member. cbn [skip_ws].
    change (is_ws (chr ",")) with false. eval_eqb. cbv iota.
    change (print_member m :: map print_member o) with (map print_member (m :: o)).
    rewrite IH; [reflexivity|congruence|simpl in *; lia|assumption].
Qed.
End Parser_facts.

Lemma size_member (m : string * json) o :
  m ∈ o -> size (snd m) <= list_sum (map (fun m => size (snd m)) o).
Proof.
  induction 1 as [m o|m y o _ IH]; simpl; lia.
Qed.

Lemma size_members_length (o : list (string * json)) :
  length o <= list_sum (map (fun m => size (snd m)) o).
Proof.
  induction o as [|m o IH]; simpl; [lia|]. pose proof (size_pos (snd m)). lia.
Qed.

Lemma commas_head close t ts c r rest :
  t = c :: r -> exists r', commas close (t :: ts) ++ rest = c :: r'.
Proof.
  intros ->. destruct ts; [rewrite commas_one|rewrite commas_more];
    cbn [app]; eexists; reflexivity.
Qed.

Lemma parse_value_print j :
  exact j = true ->
  forall fuel rest,
    size j <= fuel -> continues_number rest = false ->
    parse_value fuel (print j ++ rest) = Parsed j rest.
Proof.
  induction j as [|b|n|s|l IH|o IH] using json_ind; intros Hexact fuel rest Hfuel Hrest;
    (destruct fuel as [|fuel]; [pose proof (size_pos JNull); simpl in Hfuel; lia|]).
  - reflexivity.
  - destruct b; reflexivity.
  - cbn [print]. destruct (print_int_head n) as (c & t & Hn & Hc).
    pose proof (parse_int_print_int n rest Hexact Hrest) as Hp.
    rewrite Hn in *. cbn [app] in *.
    rewrite parse_value_number, Hp by assumption. reflexivity.
  - cbn [print]. unfold quote. cbn [app parse_value skip_ws].
    change (is_ws dquote) with false. cbv iota. eval_eqb. cbv iota.
    rewrite <- app_assoc. cbn [app]. rewrite parse_chars_quote_body. reflexivity.
  - cbn [print size] in *. destruct l as [|x l]; [reflexivity|].
    assert (Hall : Forall (reads (parse_value fuel)) (x :: l)).
    { rewrite Forall_forall in IH |- *. intros y Hy rest' Hrest'.
      cbn [exact] in Hexact. rewrite forallb_forall in Hexact.
      apply IH; [assumption|apply Hexact, list_elem_of_In, Hy| |assumption].
      pose proof (size_elem _ _ Hy). lia. }
    pose proof (parse_elements_commas (parse_value fuel) (x :: l) rest fuel) as Hp.
    destruct (print_head x) as (c & r & Hx & Hws & Hsq & _).
    destruct (commas_head (chr "]") (print x) (map print l) c r rest Hx) as [r' Hr'].
    cbn [map] in Hp. cbn [app map parse_value skip_ws].
    change (is_ws (chr "[")) with false. cbv iota. eval_eqb. cbv iota.
    rewrite Hp; [|congruence| |assumption].
    + rewrite Hr'. cbn [skip_ws]. rewrite Hws, Hsq. reflexivity.
    + pose proof (size_elems_length (x :: l)). lia.
  - cbn [print size] in *. destruct o as [|[k x] o]; [reflexivity|].
    assert (Hall : Forall (fun m => reads (parse_value fuel) (snd m)) ((k, x) :: o)).
    { rewrite Forall_forall in IH |- *. intros y Hy rest' Hrest'.
      cbn [exact] in Hexact. rewrite forallb_forall in Hexact.
      apply IH; [assumption|apply (Hexact y), list_elem_of_In, Hy| |assumption].
      pose proof (size_member _ _ Hy). lia. }
    pose proof (parse_members_commas (parse_value fuel) ((k, x) :: o) rest fuel) as Hp.
    change (fun m : string * json => quote m.1 ++ chr ":" :: print m.2)
      with print_member.
    destruct (commas_head (chr "}") (print_member (k, x)) (map print_member o)
                dquote (quote_body k ++ dquote :: chr ":" :: print x) rest) as [r' Hr'].
    { rewrite <- (app_nil_r (print_member (k, x))), print_member_app.
      rewrite app_nil_r. reflexivity. }
    cbn [map] in Hp. cbn [app map parse_value skip_ws].
    change (is_ws (chr "{")) with false. cbv iota. eval_eqb. cbv iota.
    rewrite Hp; [|congruence| |assumption].
    + rewrite Hr'. cbn [skip_ws]. change (is_ws dquote) with false. cbv iota.
      eval_eqb. reflexivity.
    + pose proof (size_members_length ((k, x) :: o)). lia.
Qed.


Lemma commas_length close items :
  list_sum (map (fun t : text => length t) items) < length (commas close items).
Proof.
  induction items as [|t ts IH]; [simpl; lia|].
  destruct ts as [|u ts].
  - rewrite commas_one, length_app. simpl. lia.
  - rewrite commas_more, length_app. cbn [map list_sum fold_right length] in *. lia.
Qed.

Lemma size_le_length j : size j <= length (print j).
Proof.
  induction j as [|b|n|s|l IH|o IH] using json_ind; cbn [size print].
  - simpl. lia.
  - destruct b; simpl; lia.
  - destruct (print_int_head n) as (c & t & -> & _). simpl. lia.
  - simpl. lia.
  - assert (list_sum (map size l) <= list_sum (map (fun t : text => length t) (map print l))).
    { induction IH as [|x l Hx _ IHl]; simpl; lia. }
    pose proof (commas_length (chr "]") (map print l)) as Hc.
    cbn [length]. lia.
  - assert (list_sum (map (fun m => size (snd m)) o)
            <= list_sum (map (fun t : text => length t) (map print_member o))).
    { induction IH as [|[k x] o Hx _ IHo]; [simpl; lia|].
      unfold list_sum in *. cbn [map fold_right snd] in *.
      unfold print_member at 1. rewrite length_app. cbn [length fst snd]. lia. }
    pose proof (commas_length (chr "}") (map print_member o)) as Hc.
    change (fun m : string * json => quote m.1 ++ chr ":" :: print m.2)
      with print_member.
    cbn [length]. lia.
Qed.

(** Every syntax tree is recovered from its printed text. *)
Lemma parse_print j : exact j = true -> parse (print j) = Parsed j [].
Proof.
  intros Hexact. unfold parse. rewrite <- (app_nil_r (print j)) at 2.
  rewrite parse_value_print; [reflexivity|assumption| |reflexivity].
  pose proof (size_le_length j). lia.
Qed.

Lemma print_nonempty j : print j <> [].
Proof. destruct (print_head j) as (c & t & -> & _). discriminate. Qed.
(** *** Fuel never runs out *)

Lemma skip_ws_length s : length (skip_ws s) <= length s.
Proof.
  induction s as [|c s IH]; [reflexivity|]. cbn [skip_ws].
  destruct (is_ws c); cbn [length]; lia.
Qed.

Lemma skip_ws_cons s c r : skip_ws s = c :: r -> length r < length s.
Proof. intros Hs. pose proof (skip_ws_length s) as Hl. rewrite Hs in Hl. exact Hl. Qed.

Lemma and_then_advances {A B} s (o : outcome A) (k : A -> text -> outcome B) :
  advances s o ->
  (forall a r, o = Parsed a r -> length r < length s ->
               match k a r with
               | Parsed _ r' => length r' <= length r
               | Exhausted => False
               | _ => True
               end) ->
  advances s (and_then o k).
Proof.
  intros Ho Hk. destruct o as [a r| | |]; cbn in *; try exact I; try contradiction.
  specialize (Hk a r eq_refl Ho). destruct (k a r); cbn; try exact I; try contradiction.
  lia.
Qed.

Lemma span_digits_length s :
  length (fst (span_digits s)) + length (snd (span_digits s)) = length s.
Proof.
  induction s as [|c s IH]; [reflexivity|]. cbn [span_digits].
  destruct (is_digit c); [|reflexivity].
  destruct (span_digits s) as [ds r]. cbn [fst snd length] in *. lia.
Qed.

Lemma parse_frac_length s :
  match parse_frac s with
  | Parsed _ r => length r <= length s
  | Exhausted => False
  | _ => True
  end.
Proof.
  destruct s as [|c r]; [cbn; lia|]. cbn [parse_frac].
  destruct (Ascii.eqb c (chr ".")); [|cbn; lia].
  pose proof (span_digits_length r) as Hl.
  destruct (span_digits r) as [[|d ds] r']; [exact I|].
  cbn [fst snd length] in *. lia.
Qed.

Lemma parse_exp_length s :
  match parse_exp s with
  | Parsed _ r => length r <= length s
  | Exhausted => False
  | _ => True
  end.
Proof.
  destruct s as [|c r]; [cbn; lia|]. cbn [parse_exp].
  destruct (_ || _); [|cbn; lia].
  assert (Hsign : forall negative r1,
             length r1 <= length r ->
             match (match span_digits r1 with
                    | ([], _) => Malformed
                    | (ds, r2) =>
                        Parsed (if negative : bool
                                then (- Z.of_N (N.of_uint (uint_of_digits ds)))%Z
                                else Z.of_N (N.of_uint (uint_of_digits ds))) r2
                    end) with
             | Parsed _ r2 => length r2 <= length (c :: r)
             | Exhausted => False
             | _ => True
             end).
  { intros negative r1 Hr1. pose proof (span_digits_length r1) as Hl.
    destruct (span_digits r1) as [[|d ds] r2]; [exact I|].
    cbn [fst snd length] in *. lia. }
  destruct r as [|c1 r1]; [apply (Hsign false []); cbn; lia|].
  destruct (Ascii.eqb c1 (chr "-")); [apply (Hsign true r1); cbn; lia|].
  destruct (Ascii.eqb c1 (chr "+")); [apply (Hsign false r1); cbn; lia|].
  apply (Hsign false (c1 :: r1)). cbn; lia.
Qed.

Lemma parse_nat_advances s : advances s (parse_nat s).
Proof.
  unfold parse_nat. pose proof (span_digits_length s) as Hl.
  destruct (span_digits s) as [ds r]. cbn [fst snd] in Hl.
  destruct ds as [|c ds]; [exact I|].
  destruct (_ && _); [exact I|].
  pose proof (parse_frac_length r) as Hfrac.
  destruct (parse_frac r) as [fs r1| | |]; cbn [and_then advances];
    try exact I; try contradiction.
  pose proof (parse_exp_length r1) as Hexp.
  destruct (parse_exp r1) as [e r2| | |]; cbn [and_then advances];
    try exact I; try contradiction.
  destruct (scale _ _ _) as [n|]; [|exact I].
  destruct (n <=? 9007199254740991)%N; [|exact I].
  cbn [advances length] in *. lia.
Qed.

Lemma parse_int_advances s : advances s (parse_int s).
Proof.
  destruct s as [|c r]; [exact I|]. unfold parse_int.
  destruct (Ascii.eqb c (chr "-")).
  - pose proof (parse_nat_advances r) as Hk.
    destruct (parse_nat r); cbn in *; try exact I; try contradiction. lia.
  - apply and_then_advances; [apply parse_nat_advances|].
    intros n r' _ _. cbn. lia.
Qed.

Lemma parse_chars_advances s : advances s (parse_chars s).
Proof.
  remember (length s) as n eqn:Hn. revert s Hn.
  induction n as [n IH] using lt_wf_ind. intros s ->.
  assert (Hrec : forall c t, length t < length s ->
                             advances s (cons_char c (parse_chars t))).
  { intros c t Ht. pose proof (IH _ Ht t eq_refl) as Hadv.
    destruct (parse_chars t); cbn in *; try exact I; try contradiction. lia. }
  assert (Hrecs : forall u t, length t < length s ->
                              advances s (cons_chars u (parse_chars t))).
  { intros u t Ht. pose proof (IH _ Ht t eq_refl) as Hadv.
    destruct (parse_chars t); cbn in *; try exact I; try contradiction. lia. }
  destruct s as [|c r]; [exact I|]. cbn [parse_chars].
  destruct (Ascii.eqb c dquote); [cbn; lia|].
  destruct (Ascii.eqb c backslash).
  - destruct r as [|e r1]; [exact I|].
    destruct (Ascii.eqb e (chr "u")).
    + destruct r1 as [|h1 [|h2 [|h3 [|h4 r2]]]]; try exact I.
      destruct (unicode_escape h1 h2 h3 h4) as [n|]; [|exact I].
      destruct (is_high_surrogate n).
      * destruct r2 as [|b [|u [|l1 [|l2 [|l3 [|l4 r3]]]]]]; try exact I.
        destruct (_ && _); [|exact I].
        destruct (unicode_escape l1 l2 l3 l4) as [m|]; [|exact I].
        destruct (is_low_surrogate m); [|exact I]. apply Hrecs. cbn. lia.
      * destruct (is_low_surrogate n); [exact I|]. apply Hrecs. cbn. lia.
    + destruct (simple_escape e); [|exact I]. apply Hrec. cbn. lia.
  - destruct (N_of_ascii c <? 32)%N; [exact I|]. apply Hrec. cbn. lia.
Qed.

Lemma strip_prefix_length w s r : strip_prefix w s = Some r -> length r <= length s.
Proof.
  revert s. induction w as [|c w IH]; intros s Hs.
  - destruct s; injection Hs as <-; reflexivity.
  - destruct s as [|c' s]; [discriminate|]. cbn in Hs.
    destruct (Ascii.eqb c c'); [|discriminate].
    specialize (IH s Hs). cbn. lia.
Qed.

Lemma expect_advances word c r j : advances (c :: r) (expect word r j).
Proof.
  unfold expect. destruct (strip_prefix (lit word) r) as [r'|] eqn:Hp; [|exact I].
  apply strip_prefix_length in Hp. cbn. lia.
Qed.

Section Fuel.
Variable pv : text -> outcome json.

Lemma parse_elements_advances fuel s :
  length s < fuel ->
  (forall s', length s' <= length s -> advances s' (pv s')) ->
  advances s (parse_elements pv fuel s).
Proof.
  revert s. induction fuel as [|fuel IH]; intros s Hfuel Hpv; [lia|].
  cbn [parse_elements]. apply and_then_advances; [apply Hpv; lia|].
  intros x r _ Hr. unfold after_element.
  destruct (skip_ws r) as [|c r'] eqn:Hskip; [exact I|].
  pose proof (skip_ws_cons _ _ _ Hskip) as Hr'.
  destruct (Ascii.eqb c (chr ",")).
  - assert (Hadv : advances r' (parse_elements pv fuel r')).
    { apply IH; [lia|]. intros s' Hs'. apply Hpv. lia. }
    destruct (parse_elements pv fuel r'); cbn in *;
      try exact I; try contradiction. lia.
  - destruct (Ascii.eqb c (chr "]")); [|exact I]. lia.
Qed.

Lemma parse_member_advances s :
  (forall s', length s' <= length s -> advances s' (pv s')) ->
  advances s (parse_member pv s).
Proof.
  intros Hpv. unfold parse_member.
  destruct (skip_ws s) as [|q r0] eqn:Hskip; [exact I|].
  pose proof (skip_ws_cons _ _ _ Hskip) as Hr0.
  destruct (Ascii.eqb q dquote); [|exact I].
  pose proof (parse_chars_advances r0) as Hk.
  destruct (parse_chars r0) as [k r1| | |]; cbn [and_then advances] in *;
    try exact I; try contradiction.
  destruct (skip_ws r1) as [|c r2] eqn:Hskip1; [exact I|].
  pose proof (skip_ws_cons _ _ _ Hskip1) as Hr2.
  destruct (Ascii.eqb c (chr ":")); [|exact I].
  specialize (Hpv r2 ltac:(lia)).
  destruct (pv r2); cbn in *; try exact I; try contradiction. lia.
Qed.

Lemma parse_members_advances fuel s :
  length s < fuel ->
  (forall s', length s' <= length s -> advances s' (pv s')) ->
  advances s (parse_members pv fuel s).
Proof.
  revert s. induction fuel as [|fuel IH]; intros s Hfuel Hpv; [lia|].
  cbn [parse_members]. apply and_then_advances; [apply parse_member_advances, Hpv|].
  intros [k x] r _ Hr. cbn [fst snd]. unfold after_member.
  destruct (skip_ws r) as [|c r'] eqn:Hskip; [exact I|].
  pose proof (skip_ws_cons _ _ _ Hskip) as Hr'.
  destruct (Ascii.eqb c (chr ",")).
  - assert (Hadv : advances r' (parse_members pv fuel r')).
    { apply IH; [lia|]. intros s' Hs'. apply Hpv. lia. }
    destruct (parse_members pv fuel r'); cbn in *;
      try exact I; try contradiction. lia.
  - destruct (Ascii.eqb c (chr "}")); [|exact I]. lia.
Qed.
End Fuel.

Lemma advances_skipped {A} s c r (o : outcome A) :
  skip_ws s = c :: r -> advances (c :: r) o -> advances s o.
Proof.
  intros Hskip Ho. pose proof (skip_ws_length s) as Hl. rewrite Hskip in Hl.
  destruct o; cbn in *; try exact I; try contradiction. lia.
Qed.

Lemma parse_value_advances fuel :
  forall s, length s < fuel -> advances s (parse_value fuel s).
Proof.
  induction fuel as [|fuel IH]; intros s Hfuel; [lia|].
  cbn [parse_value]. destruct (skip_ws s) as [|c r] eqn:Hskip; [exact I|].
  apply (advances_skipped s c r _ Hskip).
  pose proof (skip_ws_cons _ _ _ Hskip) as Hr.
  destruct (Ascii.eqb c (chr "n")); [apply expect_advances|].
  destruct (Ascii.eqb c (chr "t")); [apply expect_advances|].
  destruct (Ascii.eqb c (chr "f")); [apply expect_advances|].
  destruct (Ascii.eqb c dquote).
  { pose proof (parse_chars_advances r) as Hk.
    destruct (parse_chars r); cbn in *; try exact I; try contradiction. lia. }
  destruct (Ascii.eqb c (chr "[")).
  { destruct (skip_ws r) as [|c' r'] eqn:Hskip'; [exact I|].
    pose proof (skip_ws_cons _ _ _ Hskip') as Hr'.
    destruct (Ascii.eqb c' (chr "]")); [cbn; lia|].
    assert (Hadv : advances r (parse_elements (parse_value fuel) fuel r)).
    { apply parse_elements_advances; [lia|]. intros s' Hs'. apply IH. lia. }
    destruct (parse_elements (parse_value fuel) fuel r); cbn in *;
      try exact I; try contradiction. lia. }
  destruct (Ascii.eqb c (chr "{")).
  { destruct (skip_ws r) as [|c' r'] eqn:Hskip'; [exact I|].
    pose proof (skip_ws_cons _ _ _ Hskip') as Hr'.
    destruct (Ascii.eqb c' (chr "}")); [cbn; lia|].
    assert (Hadv : advances r (parse_members (parse_value fuel) fuel r)).
    { apply parse_members_advances; [lia|]. intros s' Hs'. apply IH. lia. }
    destruct (parse_members (parse_value fuel) fuel r); cbn in *;
      try exact I; try contradiction. lia. }
  pose proof (parse_int_advances (c :: r)) as Hk.
  destruct (parse_int (c :: r)); cbn in *; try exact I; try contradiction. lia.
Qed.

(** With the fuel [parse] gives it, the parser always reaches a verdict. *)
Lemma parse_never_exhausted s : parse s <> Exhausted.
Proof.
  unfold parse. pose proof (parse_value_advances (S (length s)) s ltac:(lia)) as Hadv.
  destruct (parse_value (S (length s)) s) as [j r| | |]; cbn in *;
    try discriminate; try contradiction.
  destruct (skip_ws r); discriminate.
Qed.

End TextFacts.

(* ===================================================================== *)
(** ** The codec on the values it carries *)
(* ===================================================================== *)

Module JSFacts.
Import Text TextFacts JS.

Local Open Scope string_scope.
Local Open Scope list_scope.

Lemma define_fresh {A} k (x : A) o :
  k ∉ map fst o -> define k x o = o ++ [(k, x)].
Proof.
  induction o as [|[k' y] o IH]; intros Hk; [reflexivity|].
  cbn [define map fst] in *. apply not_elem_of_cons in Hk as [Hne Hk].
  destruct (String.eqb_spec k k') as [->|_]; [congruence|].
  rewrite IH by assumption. reflexivity.
Qed.

Lemma build_object_acc {A} (ms acc : list (string * A)) :
  NoDup (map fst (acc ++ ms)) ->
  fold_left (fun o m => define (fst m) (snd m) o) ms acc = acc ++ ms.
Proof.
  revert acc. induction ms as [|[k x] ms IH]; intros acc Hnd.
  - rewrite app_nil_r. reflexivity.
  - cbn [fold_left fst snd]. rewrite define_fresh.
    + rewrite IH; rewrite <- app_assoc; [reflexivity|assumption].
    + rewrite map_app in Hnd. apply NoDup_app in Hnd as (_ & Hdisj & _).
      intros Hin. apply (Hdisj k Hin). cbn [map fst]. apply list_elem_of_here.
Qed.

Lemma build_object_distinct {A} (ms : list (string * A)) :
  NoDup (map fst ms) -> build_object ms = ms.
Proof. intros Hnd. unfold build_object. rewrite build_object_acc; auto. Qed.

Lemma bytes_of_byte_values bs : bytes_of (map byte_value bs) = Some bs.
Proof.
  induction bs as [|b bs IH]; [reflexivity|].
  cbn [map bytes_of]. rewrite IH. unfold byte_value, value_byte.
  rewrite N2Z.id, Byte.of_to_N.
  destruct (Z.leb_spec 0 (Z.of_N (Byte.to_N b))); [reflexivity|lia].
Qed.

Lemma as_buffer_tagged bs : BufferJSON_reviver (tagged bs) = VBuf bs.
Proof.
  unfold tagged, BufferJSON_reviver, as_buffer. cbn [get_prop].
  change (String.eqb "type" "type") with true.
  change (String.eqb "data" "type") with false.
  change (String.eqb "data" "data") with true.
  change (String.eqb "Buffer" "Buffer") with true.
  cbv iota. rewrite bytes_of_byte_values. reflexivity.
Qed.

Lemma serializable_defined v :
  serializable v = true -> written v = Some (or_null (written v)).
Proof. destruct v; intros Hs; try reflexivity. discriminate. Qed.

Lemma serializable_not_undefined v : serializable v = true -> is_undefined v = false.
Proof. destruct v; intros Hs; try reflexivity. discriminate. Qed.

Lemma revive_serialized v :
  serializable v = true -> untagged v = true ->
  InternalizeJSONProperty BufferJSON_reviver (or_null (written v)) = v.
Proof.
  induction v as [| |b|n|s|bs|l IH|o IH] using value_ind; intros Hs Hu;
    try reflexivity; try discriminate.
  - cbn [written or_null InternalizeJSONProperty map fst snd].
    rewrite map_map. cbn [InternalizeJSONProperty].
    change (map (fun b => BufferJSON_reviver (VNum (Z.of_N (Byte.to_N b)))) bs)
      with (map byte_value bs).
    cbn [BufferJSON_reviver]. apply as_buffer_tagged.
  - cbn [written or_null InternalizeJSONProperty BufferJSON_reviver
         serializable untagged] in *.
    f_equal. rewrite map_map.
    rewrite forallb_forall in Hs, Hu. rewrite Forall_forall in IH.
    rewrite <- (map_id l) at 2. apply map_ext_in. intros x Hx.
    apply IH; [apply list_elem_of_In, Hx|apply Hs, Hx|apply Hu, Hx].
  - cbn [written or_null InternalizeJSONProperty serializable untagged] in *.
    apply andb_true_iff in Hs as [Hnd Hs]. apply bool_decide_eq_true in Hnd.
    apply andb_true_iff in Hu as [Hplain Hu].
    rewrite forallb_forall in Hs, Hu. rewrite Forall_forall in IH.
    assert (Hmap : map (fun m => (fst m, InternalizeJSONProperty BufferJSON_reviver (snd m)))
              (flat_map (fun p => keep_defined (fst p) (written (snd p))) o)
            = o).
    { clear Hnd Hplain. induction o as [|[k x] o IHo]; [reflexivity|].
      cbn [flat_map fst snd].
      rewrite (serializable_defined x) by (apply (Hs (k, x)), in_eq).
      cbn [keep_defined app map fst snd]. f_equal.
      - f_equal. apply (IH (k, x)); [apply list_elem_of_here| |].
        + apply (Hs (k, x)), in_eq.
        + apply (Hu (k, x)), in_eq.
      - apply IHo; intros p Hp.
        + intros. apply IH; [apply list_elem_of_further|..]; assumption.
        + apply Hs, in_cons, Hp.
        + apply Hu, in_cons, Hp. }
    rewrite Hmap, build_object_distinct by assumption.
    assert (Hfilter : List.filter (fun p : string * value => negb (is_undefined (snd p))) o = o).
    { clear -Hs. induction o as [|p o IHo]; [reflexivity|].
      cbn [List.filter]. rewrite (serializable_not_undefined (snd p)) by (apply Hs, in_eq).
      cbn [negb]. f_equal. apply IHo. intros q Hq. apply Hs, in_cons, Hq. }
    rewrite Hfilter. cbn [BufferJSON_reviver].
    destruct (as_buffer o); [discriminate|reflexivity].
Qed.

Lemma serialize_tagged bs :
  written (BufferJSON_replacer (VBuf bs)) = written (VBuf bs).
Proof.
  cbn [BufferJSON_replacer]. unfold tagged.
  cbn [written flat_map fst snd keep_defined app].
  rewrite map_map. reflexivity.
Qed.

(** [JSON_parse] leaves the model only on a text outside the fragment. *)
Lemma JSON_parse_unmodelled s reviver :
  JSON_parse s reviver = Err Unmodelled -> parse (list_ascii_of_string s) = Unsupported.
Proof.
  unfold JSON_parse. pose proof (parse_never_exhausted (list_ascii_of_string s)) as Hfuel.
  destruct (parse (list_ascii_of_string s)); congruence.
Qed.

Lemma in_list_max {A} (f : A -> nat) (x : A) (l : list A) :
  In x l -> f x <= list_max (map f l).
Proof.
  induction l as [|y l IH]; [intros []|].
  cbn [map list_max fold_right]. intros [->|Hin]; [lia|].
  specialize (IH Hin). unfold list_max in IH. lia.
Qed.

Lemma all_defined_map {A B} (f : A -> option B) (g : A -> B) (l : list A) :
  (forall x, In x l -> f x = Some (g x)) -> all_defined (map f l) = Some (map g l).
Proof.
  induction l as [|x l IH]; intros Hf; [reflexivity|].
  cbn [map all_defined]. rewrite (Hf x (in_eq _ _)), IH; [reflexivity|].
  intros y Hy. apply Hf, in_cons, Hy.
Qed.

Lemma combine_written (o : list (string * value)) :
  flat_map (fun m : string * value * option json => keep_defined (fst (fst m)) (snd m))
           (combine o (map (fun p => written (snd p)) o))
  = flat_map (fun p => keep_defined (fst p) (written (snd p))) o.
Proof.
  induction o as [|p o IH]; [reflexivity|].
  cbn [map combine flat_map fst snd]. rewrite IH. reflexivity.
Qed.

(** With the BufferJSON replacer and fuel for the nesting of the value,
    [SerializeJSONProperty] writes [written]. *)
Lemma SerializeJSONProperty_written v :
  forall fuel, depth v + 3 <= fuel ->
    SerializeJSONProperty BufferJSON_replacer fuel v = Some (written v).
Proof.
  induction v as [| |b|n|s|bs|l IH|o IH] using value_ind; intros fuel Hfuel;
    (destruct fuel as [|fuel]; [lia|]);
    cbn [SerializeJSONProperty BufferJSON_replacer written]; try reflexivity.
  - destruct fuel as [|[|fuel]]; [cbn in Hfuel; lia..|].
    unfold tagged. cbn [map snd all_defined SerializeJSONProperty BufferJSON_replacer].
    rewrite map_map.
    rewrite (all_defined_map _ (fun b => Some (JNum (Z.of_N (Byte.to_N b)))))
      by (intros; reflexivity).
    cbn [combine flat_map fst snd keep_defined app]. rewrite map_map. reflexivity.
  - rewrite Forall_forall in IH.
    rewrite (all_defined_map _ written).
    + rewrite map_map. reflexivity.
    + intros x Hx. apply IH; [apply list_elem_of_In, Hx|].
      pose proof (in_list_max depth x l Hx). cbn [depth] in Hfuel. lia.
  - rewrite Forall_forall in IH.
    rewrite (all_defined_map _ (fun p => written (snd p))).
    + rewrite combine_written. reflexivity.
    + intros p Hp. apply IH; [apply list_elem_of_In, Hp|].
      pose proof (in_list_max (fun p => depth (snd p)) p o Hp). cbn [depth] in Hfuel. lia.
Qed.

Lemma JSON_stringify_written v :
  JSON_stringify v = match written v with
                     | Some j => Some (string_of_list_ascii (print j))
                     | None => None
                     end.
Proof.
  unfold JSON_stringify. rewrite SerializeJSONProperty_written by lia.
  destruct (written v); reflexivity.
Qed.

Lemma JSON_stringify_nonempty v s : JSON_stringify v = Some s -> s <> "".
Proof.
  rewrite JSON_stringify_written. destruct (written v) as [j|]; [|discriminate].
  intros [= <-] Hempty.
  apply (f_equal list_ascii_of_string) in Hempty.
  rewrite list_ascii_of_string_of_list_ascii in Hempty.
  exact (print_nonempty j Hempty).
Qed.

Lemma serializable_writable v : serializable v = true -> writable v = true.
Proof.
  induction v as [| |b|n|s|bs|l IH|o IH] using value_ind; intros Hs;
    try reflexivity; try discriminate; try exact Hs.
  - cbn [serializable writable] in *. rewrite forallb_forall in Hs |- *.
    rewrite Forall_forall in IH. intros x Hx.
    apply IH; [apply list_elem_of_In, Hx|apply Hs, Hx].
  - cbn [serializable writable] in *. apply andb_true_iff in Hs as [Hnd Hs].
    rewrite Hnd. cbn [andb]. rewrite forallb_forall in Hs |- *.
    rewrite Forall_forall in IH. intros p Hp.
    apply IH; [apply list_elem_of_In, Hp|apply Hs, Hp].
Qed.

Lemma byte_exact b : safe_integer (Z.of_N (Byte.to_N b)) = true.
Proof. destruct b; reflexivity. Qed.

(** What is written for a value with exact numbers has exact numbers. *)
Lemma written_exact v : writable v = true -> exact (or_null (written v)) = true.
Proof.
  induction v as [| |b|n|s|bs|l IH|o IH] using value_ind; intros Hw;
    try reflexivity; try exact Hw.
  - cbn [written or_null exact forallb snd]. rewrite andb_true_r.
    apply forallb_forall. intros j Hj. apply in_map_iff in Hj as (b & <- & _).
    apply byte_exact.
  - cbn [written or_null exact writable] in *. apply forallb_forall. intros j Hj.
    apply in_map_iff in Hj as (x & <- & Hx).
    rewrite forallb_forall in Hw. rewrite Forall_forall in IH.
    apply IH; [apply list_elem_of_In, Hx|apply Hw, Hx].
  - cbn [written or_null exact writable] in *. apply andb_true_iff in Hw as [_ Hw].
    apply forallb_forall. intros m Hm. apply in_flat_map in Hm as (p & Hp & Hm).
    rewrite forallb_forall in Hw. rewrite Forall_forall in IH.
    specialize (IH p (proj2 (list_elem_of_In _ _) Hp) (Hw p Hp)).
    destruct (written (snd p)) as [j|]; [|destruct Hm].
    destruct Hm as [<-|[]]. exact IH.
Qed.

(** A serialisable value without plain objects of the tagged form goes
    through [JSON.stringify] and [JSON.parse] unchanged. *)
Lemma codec_round_trip v :
  serializable v = true -> untagged v = true ->
  exists s, JSON_stringify v = Some s /\
            JSON_parse s BufferJSON_reviver = Ok v.
Proof.
  intros Hs Hu. rewrite JSON_stringify_written. unfold JSON_parse.
  rewrite (serializable_defined v Hs). eexists; split; [reflexivity|].
  rewrite list_ascii_of_string_of_list_ascii.
  rewrite parse_print by (apply written_exact, serializable_writable, Hs).
  rewrite revive_serialized by assumption. reflexivity.
Qed.

(** *** What JSON keeps of a value that holds [undefined] *)

Lemma ToBoolean_json_image v : ToBoolean (json_image v) = ToBoolean v.
Proof. destruct v; reflexivity. Qed.

Lemma json_image_defined v : is_undefined v = false -> is_undefined (json_image v) = false.
Proof. destruct v; intros Hv; try reflexivity. discriminate. Qed.

Lemma json_image_serializable v : serializable v = true -> json_image v = v.
Proof.
  induction v as [| |b|n|s|bs|l IH|o IH] using value_ind; intros Hs; try reflexivity.
  - cbn [json_image serializable] in *. f_equal.
    rewrite forallb_forall in Hs. rewrite Forall_forall in IH.
    rewrite <- (map_id l) at 2. apply map_ext_in. intros x Hx.
    rewrite (serializable_not_undefined x) by (apply Hs, Hx).
    apply IH; [apply list_elem_of_In, Hx|apply Hs, Hx].
  - cbn [json_image serializable] in *. f_equal.
    apply andb_true_iff in Hs as [_ Hs]. rewrite forallb_forall in Hs.
    rewrite Forall_forall in IH.
    induction o as [|[k x] o IHo]; [reflexivity|].
    cbn [flat_map fst snd].
    rewrite (serializable_not_undefined x) by (apply (Hs (k, x)), in_eq).
    cbn [app]. f_equal.
    + f_equal. apply (IH (k, x)); [apply list_elem_of_here|apply (Hs (k, x)), in_eq].
    + apply IHo; intros p Hp.
      * intros. apply IH; [apply list_elem_of_further|]; assumption.
      * apply Hs, in_cons, Hp.
Qed.

Lemma written_defined v : is_undefined v = false -> written v = Some (or_null (written v)).
Proof. destruct v; intros Hv; try reflexivity. discriminate. Qed.

Lemma image_names (o : list (string * value)) k :
  In k (map fst (flat_map (fun p => if is_undefined (snd p) then []
                                    else [(fst p, json_image (snd p))]) o)) ->
  In k (map fst o).
Proof.
  induction o as [|[k' x] o IH]; [intros []|].
  cbn [flat_map map fst snd]. destruct (is_undefined x); cbn [app map fst].
  - intros Hin. right. exact (IH Hin).
  - intros [->|Hin]; [left; reflexivity|right; exact (IH Hin)].
Qed.

Lemma image_names_distinct (o : list (string * value)) :
  NoDup (map fst o) ->
  NoDup (map fst (flat_map (fun p => if is_undefined (snd p) then []
                                     else [(fst p, json_image (snd p))]) o)).
Proof.
  induction o as [|[k x] o IH]; intros Hnd; [constructor|].
  cbn [map fst] in Hnd. apply NoDup_cons in Hnd as [Hk Hnd].
  cbn [flat_map fst snd]. destruct (is_undefined x); cbn [app map fst]; [exact (IH Hnd)|].
  apply NoDup_cons. split; [|exact (IH Hnd)].
  intros Hin. apply Hk. apply list_elem_of_In. apply image_names.
  apply list_elem_of_In. exact Hin.
Qed.

(** What is written for a value reads back as its image. *)
Lemma revive_written v :
  writable v = true -> untagged (json_image v) = true -> is_undefined v = false ->
  InternalizeJSONProperty BufferJSON_reviver (or_null (written v)) = json_image v.
Proof.
  induction v as [| |b|n|s|bs|l IH|o IH] using value_ind; intros Hw Hu Hd;
    try reflexivity; try discriminate.
  - cbn [written or_null InternalizeJSONProperty map fst snd].
    rewrite map_map. cbn [InternalizeJSONProperty].
    change (map (fun b => BufferJSON_reviver (VNum (Z.of_N (Byte.to_N b)))) bs)
      with (map byte_value bs).
    cbn [BufferJSON_reviver json_image]. apply as_buffer_tagged.
  - cbn [written or_null InternalizeJSONProperty BufferJSON_reviver
         writable untagged json_image] in *.
    f_equal. rewrite map_map.
    rewrite forallb_forall in Hw, Hu. rewrite Forall_forall in IH.
    apply map_ext_in. intros x Hx.
    specialize (Hu (if is_undefined x then VNull else json_image x)).
    destruct (is_undefined x) eqn:Hx'.
    + destruct x; try discriminate. reflexivity.
    + apply IH; [apply list_elem_of_In, Hx|apply Hw, Hx| |exact Hx'].
      apply Hu. apply in_map_iff. exists x. rewrite Hx'. auto.
  - cbn [written or_null InternalizeJSONProperty writable untagged json_image] in *.
    apply andb_true_iff in Hw as [Hnd Hw]. apply bool_decide_eq_true in Hnd.
    apply andb_true_iff in Hu as [Hplain Hu].
    rewrite forallb_forall in Hw, Hu. rewrite Forall_forall in IH.
    assert (Hmap : map (fun m => (fst m, InternalizeJSONProperty BufferJSON_reviver (snd m)))
              (flat_map (fun p => keep_defined (fst p) (written (snd p))) o)
            = flat_map (fun p => if is_undefined (snd p) then []
                                 else [(fst p, json_image (snd p))]) o).
    { clear Hnd Hplain Hd. induction o as [|[k x] o IHo]; [reflexivity|].
      cbn [flat_map fst snd] in *.
      assert (Htail : map (fun m => (fst m, InternalizeJSONProperty BufferJSON_reviver (snd m)))
                (flat_map (fun p => keep_defined (fst p) (written (snd p))) o)
              = flat_map (fun p => if is_undefined (snd p) then []
                                   else [(fst p, json_image (snd p))]) o).
      { apply IHo; intros z Hz;
          first [ apply IH; apply list_elem_of_further; exact Hz
                | apply Hw, in_cons, Hz
                | apply Hu; apply in_or_app; right; exact Hz ]. }
      destruct (is_undefined x) eqn:Hx.
      - destruct x; try discriminate. cbn [written keep_defined app]. exact Htail.
      - rewrite (written_defined x Hx). cbn [keep_defined app map fst snd].
        rewrite Htail. f_equal. f_equal.
        apply (IH (k, x)); [apply list_elem_of_here|apply (Hw (k, x)), in_eq| |exact Hx].
        apply (Hu (k, json_image x)). apply in_or_app. left. apply in_eq. }
    rewrite Hmap, build_object_distinct by (apply image_names_distinct; exact Hnd).
    assert (Hfilter : forall o' : list (string * value),
               List.filter (fun p : string * value => negb (is_undefined (snd p)))
                 (flat_map (fun p => if is_undefined (snd p) then []
                                     else [(fst p, json_image (snd p))]) o')
               = flat_map (fun p => if is_undefined (snd p) then []
                                    else [(fst p, json_image (snd p))]) o').
    { induction o' as [|[k x] o' IHo']; [reflexivity|].
      cbn [flat_map fst snd]. destruct (is_undefined x) eqn:Hx; cbn [app]; [exact IHo'|].
      cbn [List.filter snd]. rewrite (json_image_defined x Hx). cbn [negb].
      rewrite IHo'. reflexivity. }
    rewrite Hfilter. cbn [BufferJSON_reviver].
    destruct (as_buffer _); [discriminate|reflexivity].
Qed.

(** The text written for a value decodes to its image. *)
Lemma codec_image v :
  writable v = true -> untagged (json_image v) = true -> is_undefined v = false ->
  exists s, JSON_stringify v = Some s /\
            JSON_parse s BufferJSON_reviver = Ok (json_image v).
Proof.
  intros Hw Hu Hd. rewrite JSON_stringify_written. unfold JSON_parse.
  rewrite (written_defined v Hd). eexists; split; [reflexivity|].
  rewrite list_ascii_of_string_of_list_ascii.
  rewrite parse_print by (apply written_exact, Hw).
  rewrite revive_written by assumption. reflexivity.
Qed.
End JSFacts.

(* ===================================================================== *)
(** ** The store operations, by the command they send *)
(* ===================================================================== *)

Module Facts.
Import Text TextFacts JS JSFacts Async S3 AuthState Spec.

Local Open Scope string_scope.
Local Open Scope list_scope.

Section any_client.
Context {C : Type} `{S3Client C}.
Variable config : S3Config.

Lemma writeData_send data key c :
  writeData config data key c =
  (fst (send (put_command config data key) c),
   match snd (send (put_command config data key) c) with
   | Ok _ => Ok tt
   | Err e => Err e
   end).
Proof.
  unfold writeData, operationLock_acquire, bind, resolve, put_command.
  destruct (send _ c) as [c' [out|e]]; reflexivity.
Qed.

Lemma readData_locked_send key c :
  readData_locked config (objectKey config key) c =
  (fst (send (get_command config key) c),
   match snd (send (get_command config key) c) with
   | Ok {| Body := Some (Ok body) |} =>
       if negb (String.eqb body "") then JSON_parse body BufferJSON_reviver
       else Ok VNull
   | Ok {| Body := Some (Err e) |} => Err e
   | Ok {| Body := None |} => Ok VNull
   | Err e => Err e
   end).
Proof.
  unfold readData_locked, bind, resolve, of_result, get_command.
  destruct (send _ c) as [c' [[[[body|e]|]]|e]]; cbn [fst snd Body]; try reflexivity.
  destruct (negb (String.eqb body "")); reflexivity.
Qed.

Lemma readData_send key c :
  readData config key c =
  (fst (send (get_command config key) c),
   Ok (read_value (snd (send (get_command config key) c)))).
Proof.
  unfold readData, try_catch, operationLock_acquire. rewrite readData_locked_send.
  unfold read_value, decoded, resolve.
  destruct (send _ c) as [c' [[[[body|e]|]]|e]]; cbn [fst snd]; try reflexivity.
  destruct (negb (String.eqb body "")); [|reflexivity].
  destruct (JSON_parse body BufferJSON_reviver); reflexivity.
Qed.

Lemma removeData_send key c :
  removeData config key c = (fst (send (delete_command config key) c), Ok tt).
Proof.
  unfold removeData, try_catch, operationLock_acquire, bind, resolve, delete_command.
  destruct (send _ c) as [c' [out|e]]; reflexivity.
Qed.
End any_client.

(** *** On the in-memory store *)

Lemma store_writeData config data key (st : Store) :
  writeData config data key st =
  ({| objects := <[location config key := default "" (JSON_stringify data)]> (objects st);
      requests := requests st ++ [put_command config data key] |}, Ok tt).
Proof. reflexivity. Qed.

Lemma store_readData config key (st : Store) :
  readData config key st =
  ({| objects := objects st; requests := requests st ++ [get_command config key] |},
   Ok match objects st !! location config key with
      | Some body => decoded body
      | None => VNull
      end).
Proof.
  rewrite readData_send. unfold location. cbn.
  destruct (objects st !! (bucket config, objectKey config key)); reflexivity.
Qed.

Lemma store_removeData config key (st : Store) :
  removeData config key st =
  ({| objects := delete (location config key) (objects st);
      requests := requests st ++ [delete_command config key] |}, Ok tt).
Proof. reflexivity. Qed.

(** *** Sanitising *)

Lemma replace_all_sanitize k :
  replace_all ":" "-" (replace_all "/" "__" k) = sanitize k.
Proof.
  induction k as [|c k IH]; [reflexivity|].
  cbn [replace_all sanitize].
  destruct (Ascii.eqb_spec c "/") as [->|Hslash].
  - change (replace_all ":" "-" ("__" +:+ replace_all "/" "__" k))
      with ("__" +:+ replace_all ":" "-" (replace_all "/" "__" k)).
    rewrite IH. reflexivity.
  - cbn [replace_all]. destruct (Ascii.eqb_spec c ":") as [->|Hcolon];
      rewrite IH; reflexivity.
Qed.

Lemma or_string_empty s : or_string (Some s) "" = s.
Proof. unfold or_string. destruct (String.eqb_spec s ""); congruence. Qed.

Lemma fixFileName_sanitize k : fixFileName (Some k) = sanitize k.
Proof.
  unfold fixFileName. cbn [fmap option_fmap option_map].
  rewrite or_string_empty. apply replace_all_sanitize.
Qed.

Lemma occurs_app c s t : occurs c (s +:+ t) = occurs c s || occurs c t.
Proof.
  induction s as [|a s IH]; [reflexivity|].
  simpl. rewrite IH, orb_assoc. reflexivity.
Qed.

Lemma sanitize_clean k :
  occurs "/" (sanitize k) = false /\ occurs ":" (sanitize k) = false.
Proof.
  induction k as [|c k [IH1 IH2]]; [split; reflexivity|].
  cbn [sanitize]. rewrite !occurs_app, IH1, IH2, !orb_false_r.
  destruct (Ascii.eqb_spec c "/") as [->|Hslash]; [split; reflexivity|].
  destruct (Ascii.eqb_spec c ":") as [->|Hcolon]; [split; reflexivity|].
  cbn [occurs]. rewrite !orb_false_r.
  split; apply Ascii.eqb_neq; assumption.
Qed.

(** *** Promise.all *)

Section settle_facts.
Context {C A : Type}.

Lemma settle_outcome (tasks : list (promise C A)) c i t :
  tasks !! i = Some t ->
  snd (settle tasks c) !! i = Some (snd (t (world_before tasks c i))).
Proof.
  unfold world_before. revert c i.
  induction tasks as [|t0 tasks IH]; intros c i Hi; [discriminate|].
  destruct i as [|i]; cbn [settle take fst].
  - injection Hi as ->. destruct (t c) as [c1 r]. destruct (settle tasks c1).
    reflexivity.
  - cbn in Hi. specialize (IH (fst (t0 c)) i Hi).
    destruct (t0 c) as [c1 r]. cbn [fst] in IH.
    destruct (settle tasks c1) as [c2 rs].
    destruct (settle (take i tasks) c1) as [c3 rs']. exact IH.
Qed.

Lemma gather_rejected (rs : list (result A)) i e :
  rs !! i = Some (Err e) -> exists e', gather rs = Err e'.
Proof.
  revert i. induction rs as [|r rs IH]; intros i Hi; [discriminate|].
  destruct i as [|i]; cbn in Hi.
  - injection Hi as ->. eexists; reflexivity.
  - destruct (IH i Hi) as [e' He']. cbn [gather].
    destruct r; [rewrite He'|]; eexists; reflexivity.
Qed.

Lemma gather_fulfilled (rs : list (result A)) :
  Forall (fun r => is_rejected r = false) rs -> exists l, gather rs = Ok l.
Proof.
  induction 1 as [|r rs Hr _ [l Hl]]; [eexists; reflexivity|].
  destruct r; [|discriminate]. cbn [gather]. rewrite Hl. eexists; reflexivity.
Qed.
End settle_facts.

Lemma keys_set_tasks_triples {C} `{S3Client C} config data :
  keys_set_tasks (C:=C) config data = map (task_of config) (triples data).
Proof.
  unfold keys_set_tasks, triples.
  induction data as [|[cat entries] data IH]; [reflexivity|].
  cbn [flat_map fst snd]. rewrite map_app, IH, map_map. reflexivity.
Qed.

Lemma store_task_of config t (st : Store) :
  snd (task_of config t st) = Ok tt
  /\ requests (fst (task_of config t st)) = requests st ++ [command_of config t].
Proof.
  unfold task_of, command_of. destruct (ToBoolean (snd t)).
  - rewrite store_writeData. split; reflexivity.
  - rewrite store_removeData. split; reflexivity.
Qed.

Lemma store_settle_tasks config ts (st : Store) :
  Forall (fun r => is_rejected r = false) (snd (settle (map (task_of config) ts) st))
  /\ requests (fst (settle (map (task_of config) ts) st)) =
     requests st ++ map (command_of config) ts.
Proof.
  revert st. induction ts as [|t ts IH]; intros st.
  - cbn. rewrite app_nil_r. split; [constructor|reflexivity].
  - cbn [map settle]. destruct (store_task_of config t st) as [Hr Hreq].
    destruct (task_of config t st) as [st1 r]. cbn [fst snd] in Hr, Hreq.
    destruct (IH st1) as [Hall Hreqs].
    destruct (settle (map (task_of config) ts) st1) as [st2 rs].
    cbn [fst snd] in *. split.
    + constructor; [rewrite Hr; reflexivity|exact Hall].
    + rewrite Hreqs, Hreq, <- app_assoc. reflexivity.
Qed.

Lemma store_keys_set config data (st : Store) :
  snd (keys_set config data st) = Ok tt
  /\ requests (fst (keys_set config data st)) =
     requests st ++ map (command_of config) (triples data).
Proof.
  unfold keys_set, bind, Promise_all, resolve. rewrite keys_set_tasks_triples.
  destruct (store_settle_tasks config (triples data) st) as [Hall Hreq].
  destruct (settle (map (task_of config) (triples data)) st) as [st1 rs].
  cbn [fst snd] in *. destruct (gather_fulfilled rs Hall) as [l ->].
  split; [reflexivity|exact Hreq].
Qed.

Lemma falsy_values_complete v : ToBoolean v = false -> In v falsy_values.
Proof.
  unfold falsy_values. destruct v as [| |[]|n|s| | |]; cbn; intros Hv;
    try discriminate; auto 6.
  - apply negb_false_iff, Z.eqb_eq in Hv as ->. auto 6.
  - apply negb_false_iff, String.eqb_eq in Hv as ->. auto 6.
Qed.

(** *** Reading back what was written *)

Lemma decoded_stringified v s :
  serializable v = true -> untagged v = true ->
  JSON_stringify v = Some s -> decoded s = v.
Proof.
  intros Hs Hu Hstr. destruct (codec_round_trip v Hs Hu) as (s' & Hs' & Hparse).
  assert (s' = s) as -> by congruence.
  unfold decoded. rewrite Hparse.
  destruct (String.eqb_spec s "") as [Hempty|_]; [|reflexivity].
  exfalso. exact (JSON_stringify_nonempty v s Hstr Hempty).
Qed.

Lemma store_read_after_write config key v (st : Store) :
  serializable v = true -> untagged v = true ->
  stored_value config (fst (writeData config v key st)) key = v.
Proof.
  intros Hs Hu. rewrite store_writeData. unfold stored_value. cbn [fst objects].
  rewrite lookup_insert_eq.
  destruct (codec_round_trip v Hs Hu) as (s & Hstr & _). rewrite Hstr. cbn [default].
  exact (decoded_stringified v s Hs Hu Hstr).
Qed.

(** *** keys.get on the in-memory store *)

Section keys_get_store.
Variable fromObject : value -> result value.
Variable config : S3Config.
Variable category : string.
Hypothesis Hcategory : category <> "app-state-sync-key".

Lemma store_keys_get_tasks ids (st : Store) :
  settle (map (fun id =>
      await value ⇐ readData config (category +:+ "-" +:+ id +:+ ".json");
      await value ⇐ (if String.eqb category "app-state-sync-key" && ToBoolean value
                     then of_result (fromObject value)
                     else resolve value);
      resolve (id, value)) ids) st
  = ({| objects := objects st;
        requests := requests st ++ map (fun id => get_command config (signal_key category id)) ids |},
     map (fun id => Ok (id, stored_value config st (signal_key category id))) ids).
Proof.
  revert st. induction ids as [|id ids IH]; intros st.
  - cbn. rewrite app_nil_r. destruct st; reflexivity.
  - cbn [map settle]. unfold bind at 1 2.
    change (category +:+ "-" +:+ id +:+ ".json") with (signal_key category id).
    rewrite store_readData.
    destruct (String.eqb_spec category "app-state-sync-key") as [Heq|_]; [contradiction|].
    cbn [andb]. unfold resolve at 1 2. rewrite IH. cbn [objects requests].
    rewrite <- app_assoc. reflexivity.
Qed.

Lemma gather_all_ok {A} (l : list A) : gather (map Ok l) = Ok l.
Proof. induction l as [|a l IH]; [reflexivity|]. cbn. rewrite IH. reflexivity. Qed.

Lemma store_keys_get ids (st : Store) :
  keys_get fromObject config category ids st
  = ({| objects := objects st;
        requests := requests st ++ map (fun id => get_command config (signal_key category id)) ids |},
     assign_all (map (fun id => (id, stored_value config st (signal_key category id))) ids)).
Proof.
  unfold keys_get, bind, Promise_all. rewrite store_keys_get_tasks.
  rewrite <- (map_map (fun id => (id, stored_value config st (signal_key category id))) Ok).
  rewrite gather_all_ok. reflexivity.
Qed.
End keys_get_store.

(** In any category. *)
Lemma store_keys_get_tasks_any fromObject config type ids (st : Store) :
  settle (map (fun id =>
      await value ⇐ readData config (type +:+ "-" +:+ id +:+ ".json");
      await value ⇐ (if String.eqb type "app-state-sync-key" && ToBoolean value
                     then of_result (fromObject value)
                     else resolve value);
      resolve (id, value)) ids) st
  = ({| objects := objects st;
        requests := requests st ++ map (fun id => get_command config (signal_key type id)) ids |},
     map (fun id =>
            match delivered fromObject type (stored_value config st (signal_key type id)) with
            | Ok w => Ok (id, w)
            | Err e => Err e
            end) ids).
Proof.
  revert st. induction ids as [|id ids IH]; intros st.
  - cbn. rewrite app_nil_r. destruct st; reflexivity.
  - cbn [map settle]. unfold bind at 1 2.
    change (type +:+ "-" +:+ id +:+ ".json") with (signal_key type id).
    rewrite store_readData. fold (stored_value config st (signal_key type id)).
    unfold delivered at 1.
    destruct (String.eqb type "app-state-sync-key"
              && ToBoolean (stored_value config st (signal_key type id))).
    + unfold of_result at 1.
      destruct (fromObject (stored_value config st (signal_key type id))) as [w|e];
        [unfold resolve at 1|]; rewrite IH; cbn [objects requests];
        rewrite <- app_assoc; reflexivity.
    + unfold resolve at 1 2. rewrite IH. cbn [objects requests].
      rewrite <- app_assoc. reflexivity.
Qed.

Lemma store_keys_get_any fromObject config type ids (st : Store) :
  keys_get fromObject config type ids st
  = ({| objects := objects st;
        requests := requests st ++ map (fun id => get_command config (signal_key type id)) ids |},
     match gather (map (fun id =>
                     match delivered fromObject type
                             (stored_value config st (signal_key type id)) with
                     | Ok w => Ok (id, w)
                     | Err e => Err e
                     end) ids) with
     | Ok entries => assign_all entries
     | Err e => Err e
     end).
Proof.
  unfold keys_get. unfold bind at 1. unfold Promise_all.
  rewrite (store_keys_get_tasks_any fromObject config type ids st).
  destruct (gather _); reflexivity.
Qed.

(** *** The object keys.get fills *)

Lemma assign_all_from (entries : list (string * value)) (m : gmap string value) :
  ~ In "__proto__" (map fst entries) ->
  fold_left (fun data e =>
               match data with
               | Ok data => assign (fst e) (snd e) data
               | Err error => Err error
               end) entries (Ok {| own := m; proto := ObjectPrototype |})
  = Ok {| own := fold_left (fun data e => <[fst e := snd e]> data) entries m;
          proto := ObjectPrototype |}.
Proof.
  revert m. induction entries as [|[k x] entries IH]; intros m Hproto; [reflexivity|].
  cbn [map fst] in Hproto. cbn [fold_left fst snd]. unfold assign at 2. cbn [proto own].
  destruct (String.eqb_spec k "__proto__") as [->|_];
    [exfalso; apply Hproto; left; reflexivity|].
  cbn [andb]. apply IH. intros Hin. apply Hproto. right. exact Hin.
Qed.

(** Without the identifier "__proto__", the assignments make own
    properties, the later of two for one identifier deciding. *)
Lemma assign_all_plain (entries : list (string * value)) :
  ~ In "__proto__" (map fst entries) ->
  assign_all entries
  = Ok {| own := fold_left (fun data e => <[fst e := snd e]> data) entries ∅;
          proto := ObjectPrototype |}.
Proof. apply assign_all_from. Qed.

(** Whatever it is given, the assignment to "__proto__" of an object just
    created makes no own property. *)
Lemma assign_proto_empty v :
  exists p, assign "__proto__" v empty_object = Ok {| own := ∅; proto := p |}.
Proof. destruct v; eexists; reflexivity. Qed.

(** *** Initialising again after saveCreds *)

Lemma decoded_stringified_image v s :
  writable v = true -> untagged (json_image v) = true -> ToBoolean v = true ->
  JSON_stringify v = Some s -> decoded s = json_image v.
Proof.
  intros Hw Hu Hv Hstr.
  assert (Hd : is_undefined v = false) by (destruct v; try reflexivity; discriminate).
  destruct (codec_image v Hw Hu Hd) as (s' & Hs' & Hparse).
  assert (s' = s) as -> by congruence.
  unfold decoded. rewrite Hparse.
  destruct (String.eqb_spec s "") as [Hempty|_]; [|reflexivity].
  exfalso. exact (JSON_stringify_nonempty v s Hstr Hempty).
Qed.

(** *** The objects keys.set leaves *)

Lemma store_settle_objects config ts (st : Store) :
  objects (fst (settle (map (task_of config) ts) st))
  = fold_left (apply_triple config) ts (objects st).
Proof.
  revert st. induction ts as [|t ts IH]; intros st; [reflexivity|].
  cbn [map settle fold_left].
  assert (Hobj : objects (fst (task_of config t st)) = apply_triple config (objects st) t).
  { unfold task_of, apply_triple, triple_location. destruct (ToBoolean (snd t)).
    - rewrite store_writeData. reflexivity.
    - rewrite store_removeData. reflexivity. }
  destruct (task_of config t st) as [st1 r]. cbn [fst] in Hobj.
  specialize (IH st1). destruct (settle _ st1) as [st2 rs]. cbn [fst] in *.
  rewrite IH, Hobj. reflexivity.
Qed.

Lemma store_keys_set_objects config data (st : Store) :
  objects (fst (keys_set config data st))
  = fold_left (apply_triple config) (triples data) (objects st).
Proof.
  unfold keys_set, bind, Promise_all, resolve. rewrite keys_set_tasks_triples.
  pose proof (store_settle_objects config (triples data) st) as Hfold.
  destruct (settle _ st) as [st1 rs]. cbn [fst] in Hfold.
  destruct (gather rs); exact Hfold.
Qed.

End Facts.

(* ===================================================================== *)
(** ** Properties of the authentication state store *)
(* ===================================================================== *)

Import Text TextFacts JS JSFacts Async S3 AuthState Spec Facts.

Local Open Scope string_scope.
Local Open Scope list_scope.

(** C3.  The object key an operation addresses is the configured prefix
    followed by the sanitised logical key, where sanitising replaces every
    "/" with "__" and every ":" with "-"; the sanitised key holds neither
    character; a missing key sanitises to the empty string.  The three
    store operations send their command under exactly that key. *)
Theorem object_key_is_prefix_then_sanitized_key :
  forall (config : S3Config) (key : string) (data : value) (st : Store),
    objectKey config key = default "" (prefix config) +:+ sanitize key
    /\ fixFileName (Some key) = sanitize key
    /\ occurs "/" (sanitize key) = false
    /\ occurs ":" (sanitize key) = false
    /\ fixFileName None = ""
    /\ requests (fst (writeData config data key st)) =
       requests st ++
       [PutObjectCommand {| put_Bucket := bucket config;
                            put_Key := default "" (prefix config) +:+ sanitize key;
                            put_Body := JSON_stringify data;
                            put_ContentType := "application/json" |}]
    /\ requests (fst (readData config key st)) =
       requests st ++
       [GetObjectCommand {| Bucket := bucket config;
                            Key := default "" (prefix config) +:+ sanitize key |}]
    /\ requests (fst (removeData config key st)) =
       requests st ++
       [DeleteObjectCommand {| Bucket := bucket config;
                               Key := default "" (prefix config) +:+ sanitize key |}].
Proof.
  intros config key data st.
  assert (Hkey : objectKey config key = default "" (prefix config) +:+ sanitize key).
  { unfold objectKey. rewrite fixFileName_sanitize. reflexivity. }
  destruct (sanitize_clean key) as [Hslash Hcolon].
  rewrite store_writeData, store_readData, store_removeData.
  unfold put_command, get_command, delete_command. cbn [fst requests].
  rewrite <- Hkey.
  repeat split; auto using fixFileName_sanitize.
Qed.

(** C4.  [readData] and [removeData] never reject, whatever the client
    answers: [readData] resolves, and resolves to null when the fetch is
    rejected; [removeData] resolves even when the delete is rejected.  On a
    key never written to the store, [readData] resolves to null and
    [removeData] resolves and changes no object. *)
Theorem read_and_remove_never_reject :
  forall {C : Type} `{S3Client C} (config : S3Config) (key : string) (c : C) (st : Store),
    objects st !! location config key = None ->
    (exists v, readData config key c = (fst (send (get_command config key) c), Ok v))
    /\ (is_rejected (snd (send (get_command config key) c)) = true ->
        snd (readData config key c) = Ok VNull)
    /\ removeData config key c = (fst (send (delete_command config key) c), Ok tt)
    /\ snd (readData config key st) = Ok VNull
    /\ snd (removeData config key st) = Ok tt
    /\ objects (fst (removeData config key st)) = objects st.
Proof.
  intros C client config key c st Hfresh.
  rewrite readData_send, removeData_send, store_readData, store_removeData, Hfresh.
  cbn [fst snd objects]. repeat split.
  - eexists; reflexivity.
  - destruct (snd (send (get_command config key) c)); [discriminate|reflexivity].
  - apply delete_id. exact Hfresh.
Qed.

(** C4 at an unreachable service and at the empty store. *)
Lemma read_and_remove_never_reject_witness :
  objects empty_store !! location sample_config "pre-key-7.json" = None
  /\ snd (readData sample_config "pre-key-7.json" offline) = Ok VNull
  /\ snd (removeData sample_config "pre-key-7.json" offline) = Ok tt
  /\ snd (readData sample_config "pre-key-7.json" empty_store) = Ok VNull.
Proof.
  split; [reflexivity|].
  destruct (read_and_remove_never_reject sample_config "pre-key-7.json" offline
              empty_store eq_refl) as (_ & Hread & Hremove & Hnull & _).
  split; [apply Hread; reflexivity|].
  split; [rewrite Hremove; reflexivity|exact Hnull].
Defined.

(** C9.  When the stored object is served with a missing or an empty body,
    the callback [readData] runs under the lock resolves to null itself:
    nothing is parsed and no parse error is raised (parsing the empty text
    would raise one); so [readData] resolves to null. *)
Theorem empty_or_missing_body_reads_null :
  forall {C : Type} `{S3Client C} (config : S3Config) (key : string) (c : C) (out : Output),
    snd (send (get_command config key) c) = Ok out ->
    Body out = None \/ Body out = Some (Ok "") ->
    readData_locked config (objectKey config key) c
      = (fst (send (get_command config key) c), Ok VNull)
    /\ readData config key c = (fst (send (get_command config key) c), Ok VNull)
    /\ JSON_parse "" BufferJSON_reviver = Err SyntaxError.
Proof.
  intros C client config key c out Hsent Hbody.
  rewrite readData_locked_send, readData_send, Hsent.
  destruct out as [body]. cbn [Body] in Hbody.
  destruct Hbody as [->| ->]; repeat split.
Qed.

(** C9 at a stored object of length zero. *)
Lemma empty_or_missing_body_reads_null_witness :
  snd (send (get_command sample_config "session-9.json")
         (store_with sample_config "session-9.json" ""))
    = Ok {| Body := Some (Ok "") |}
  /\ snd (readData sample_config "session-9.json"
            (store_with sample_config "session-9.json" "")) = Ok VNull.
Proof.
  assert (Hsent : snd (send (get_command sample_config "session-9.json")
                         (store_with sample_config "session-9.json" ""))
                  = Ok {| Body := Some (Ok "") |}) by reflexivity.
  split; [exact Hsent|].
  destruct (empty_or_missing_body_reads_null sample_config "session-9.json"
              (store_with sample_config "session-9.json" "")
              {| Body := Some (Ok "") |} Hsent (or_intror eq_refl))
    as (_ & Hread & _).
  rewrite Hread. reflexivity.
Defined.

(** C6, as the specification states it, fails: on a stored object whose
    body is the malformed text "{", [readData] does not reject. *)
Lemma malformed_json_is_not_propagated :
  ~ (forall (config : S3Config) (key : string) (st : Store) (body : string),
       objects st !! location config key = Some body ->
       JSON_parse body BufferJSON_reviver = Err SyntaxError ->
       exists e, snd (readData config key st) = Err e).
Proof.
  intros Hclaim.
  assert (Hstored : objects (store_with sample_config "session-1.json" "{")
                    !! location sample_config "session-1.json" = Some "{")
    by reflexivity.
  destruct (Hclaim sample_config "session-1.json"
              (store_with sample_config "session-1.json" "{") "{"
              Hstored eq_refl) as [e He].
  rewrite store_readData, Hstored in He. discriminate He.
Qed.

(** C6, amended.  When the stored object holds malformed JSON, the parse
    failure is raised inside the callback run under the lock and caught by
    [readData], which resolves to null. *)
Theorem malformed_json_reads_null :
  forall {C : Type} `{S3Client C} (config : S3Config) (key : string) (c : C) (body : string),
    snd (send (get_command config key) c) = Ok {| Body := Some (Ok body) |} ->
    body <> "" ->
    JSON_parse body BufferJSON_reviver = Err SyntaxError ->
    readData_locked config (objectKey config key) c
      = (fst (send (get_command config key) c), Err SyntaxError)
    /\ readData config key c = (fst (send (get_command config key) c), Ok VNull).
Proof.
  intros C client config key c body Hsent Hne Hbad.
  rewrite readData_locked_send, readData_send, Hsent.
  unfold read_value, decoded. rewrite Hbad.
  destruct (String.eqb_spec body "") as [->|_]; [congruence|].
  split; reflexivity.
Qed.

(** C6, amended, at the stored body "{". *)
Lemma malformed_json_reads_null_witness :
  JSON_parse "{" BufferJSON_reviver = Err SyntaxError
  /\ snd (readData_locked sample_config (objectKey sample_config "session-1.json")
            (store_with sample_config "session-1.json" "{")) = Err SyntaxError
  /\ snd (readData sample_config "session-1.json"
            (store_with sample_config "session-1.json" "{")) = Ok VNull.
Proof.
  assert (Hsent : snd (send (get_command sample_config "session-1.json")
                         (store_with sample_config "session-1.json" "{"))
                  = Ok {| Body := Some (Ok "{") |}) by reflexivity.
  assert (Hne : "{" <> "") by discriminate.
  split; [reflexivity|].
  destruct (malformed_json_reads_null sample_config "session-1.json"
              (store_with sample_config "session-1.json" "{") "{"
              Hsent Hne eq_refl) as [Hlocked Hread].
  rewrite Hlocked, Hread. split; reflexivity.
Defined.

(** C5.  A write the store rejects is not caught: [writeData] rejects with
    the rejection of its PutObject command; so does [saveCreds] when the
    write of "creds.json" is rejected; and [keys.set] rejects whenever one
    of the writes it starts, run after the operations started before it,
    rejects. *)
Theorem write_failures_propagate :
  forall {C : Type} `{S3Client C} (initAuthCreds : unit -> value)
         (fromObject : value -> result value) (config : S3Config) (c : C),
    (forall data key e,
        snd (send (put_command config data key) c) = Err e ->
        writeData config data key c = (fst (send (put_command config data key) c), Err e))
    /\ (forall c0 h e,
          snd (useS3AuthState initAuthCreds fromObject config c0) = Ok h ->
          snd (send (put_command config (creds (state h)) "creds.json") c) = Err e ->
          saveCreds h c
          = (fst (send (put_command config (creds (state h)) "creds.json") c), Err e))
    /\ (forall data i category id v e,
          triples data !! i = Some (category, id, v) ->
          ToBoolean v = true ->
          snd (writeData config v (signal_key category id)
                 (world_before (keys_set_tasks config data) c i)) = Err e ->
          exists e', snd (keys_set config data c) = Err e').
Proof.
  intros C client initAuthCreds fromObject config c. repeat split.
  - intros data key e Hsent. rewrite writeData_send, Hsent. reflexivity.
  - intros c0 h e Hinit Hsent.
    unfold useS3AuthState, bind, resolve in Hinit.
    rewrite readData_send in Hinit. cbn [fst snd] in Hinit.
    injection Hinit as <-. cbn [saveCreds state creds] in *.
    rewrite writeData_send, Hsent. reflexivity.
  - intros data i category id v e Hi Hv Hwrite.
    assert (Htask : keys_set_tasks config data !! i
                    = Some (writeData config v (signal_key category id))).
    { rewrite keys_set_tasks_triples, list_lookup_fmap, Hi. cbn.
      unfold task_of. cbn [fst snd]. rewrite Hv. reflexivity. }
    pose proof (settle_outcome _ c i _ Htask) as Hout. rewrite Hwrite in Hout.
    destruct (gather_rejected _ _ _ Hout) as [e' He'].
    exists e'. unfold keys_set, bind, Promise_all.
    destruct (settle (keys_set_tasks config data) c) as [c1 rs].
    cbn [snd] in He'. rewrite He'. reflexivity.
Qed.

(** C5 at an unreachable service. *)
Lemma write_failures_propagate_witness :
  snd (writeData sample_config foo_bar "pre-key-1.json" offline)
    = Err (ServiceException "NetworkingError")
  /\ exists e', snd (keys_set sample_config sample_data offline) = Err e'.
Proof.
  destruct (write_failures_propagate (fun _ => VNull) Ok sample_config offline)
    as (Hwrite & _ & Hset).
  split.
  - rewrite (Hwrite foo_bar "pre-key-1.json" (ServiceException "NetworkingError"));
      reflexivity.
  - apply (Hset sample_data 0 "pre-key" "1" foo_bar (ServiceException "NetworkingError"));
      reflexivity.
Defined.

(** C10.  [keys.set] decides between write and remove by truthiness.
    Undefined, null, false, 0 and the empty string are falsy, and they are
    all the falsy values.  Whatever else its argument holds, for every
    triple whose value is one of them the operation [keys.set] starts is
    [removeData] of that key; on the store the DeleteObject command of
    that key is among the commands sent, and a PutObject command is sent
    for a truthy value of the argument only.  A falsy triple on its own
    deletes the object of its key and writes nothing. *)
Theorem falsy_values_are_removed_not_written :
  forall {C : Type} `{S3Client C} (config : S3Config) (category id : string) (v : value)
         (st : Store) (data : SignalDataSet),
    In v falsy_values ->
    ToBoolean v = false
    /\ (forall w, ToBoolean w = false -> In w falsy_values)
    /\ (forall i category' id',
          triples data !! i = Some (category', id', v) ->
          keys_set_tasks (C:=C) config data !! i
          = Some (removeData config (signal_key category' id')))
    /\ (exists sent,
          requests (fst (keys_set config data st)) = requests st ++ sent
          /\ (forall category' id',
                In (category', id', v) (triples data) ->
                In (delete_command config (signal_key category' id')) sent)
          /\ (forall p,
                In (PutObjectCommand p) sent ->
                exists category' id' v',
                  In (category', id', v') (triples data)
                  /\ ToBoolean v' = true
                  /\ PutObjectCommand p = put_command config v' (signal_key category' id')))
    /\ keys_set config [(category, [(id, v)])] st
       = ({| objects := delete (location config (signal_key category id)) (objects st);
             requests := requests st ++ [delete_command config (signal_key category id)] |},
          Ok tt).
Proof.
  intros C client config category id v st data Hv.
  assert (Hfalse : ToBoolean v = false).
  { unfold falsy_values in Hv. cbn in Hv.
    destruct Hv as [<-|[<-|[<-|[<-|[<-|[]]]]]]; reflexivity. }
  split; [exact Hfalse|]. split; [exact falsy_values_complete|]. split; [|split].
  - intros i category' id' Hi.
    rewrite keys_set_tasks_triples, list_lookup_fmap, Hi. cbn [fmap option_fmap option_map].
    unfold task_of. cbn [fst snd]. rewrite Hfalse. reflexivity.
  - exists (map (command_of config) (triples data)).
    split; [apply store_keys_set|]. split.
    + intros category' id' Hin. apply in_map_iff. exists (category', id', v).
      split; [|exact Hin]. unfold command_of. cbn [fst snd]. rewrite Hfalse. reflexivity.
    + intros p Hp. apply in_map_iff in Hp as ([[category' id'] v'] & Hcmd & Hin).
      unfold command_of in Hcmd. cbn [fst snd] in Hcmd.
      destruct (ToBoolean v') eqn:Hv'; [|discriminate].
      exists category', id', v'. auto.
  - unfold keys_set, keys_set_tasks, bind, Promise_all, resolve.
    cbn [flat_map map fst snd app settle]. rewrite Hfalse.
    rewrite store_removeData. reflexivity.
Qed.

(** C10 at the value 0: among other triples of two categories, and on its
    own over an object stored before. *)
Lemma falsy_values_are_removed_not_written_witness :
  In (VNum 0) falsy_values
  /\ keys_set_tasks (C:=Offline) sample_config mixed_data !! 1
     = Some (removeData sample_config "pre-key-2.json")
  /\ In (delete_command sample_config "pre-key-2.json")
        (requests (fst (keys_set sample_config mixed_data empty_store)))
  /\ objects (fst (keys_set sample_config [("session", [("7", VNum 0)])]
                     (store_with sample_config "session-7.json" "1")))
     !! location sample_config "session-7.json" = None.
Proof.
  assert (Hin : In (VNum 0) falsy_values) by (cbn; auto).
  split; [exact Hin|].
  destruct (falsy_values_are_removed_not_written (C:=Offline) sample_config "session" "7"
              (VNum 0) empty_store mixed_data Hin)
    as (_ & _ & Htask & (sent & Hsent & Hdelete & _) & _).
  split; [exact (Htask 1 "pre-key" "2" eq_refl)|].
  split.
  - rewrite Hsent. apply in_or_app. right.
    apply (Hdelete "pre-key" "2"). cbn. auto.
  - destruct (falsy_values_are_removed_not_written (C:=Offline) sample_config "session" "7"
                (VNum 0) (store_with sample_config "session-7.json" "1") [] Hin)
      as (_ & _ & _ & _ & Hset).
    rewrite Hset. cbn [fst objects]. apply lookup_delete_eq.
Defined.

(** C2, as the specification states it, fails: a plain object that has the
    tagged form of a byte sequence is JSON-serialisable, is written as the
    same text as the byte sequence itself, and is read back as the byte
    sequence, not as the object. *)
Lemma buffer_shaped_object_is_not_restored :
  ~ (forall v : value,
       serializable v = true ->
       exists s, JSON_stringify v = Some s /\ JSON_parse s BufferJSON_reviver = Ok v).
Proof.
  intros Hclaim.
  destruct (Hclaim (tagged [Byte.x00; Byte.x01; Byte.xff]) eq_refl) as (s & Hs & Hparse).
  vm_compute in Hs. injection Hs as <-. vm_compute in Hparse. discriminate Hparse.
Qed.

(** C2, amended.  For every JSON-serialisable value built from null,
    booleans, the integers JavaScript holds exactly, strings, byte
    sequences, and arrays and objects of these, in which no plain object
    has the tagged form of a byte sequence: the text written for it decodes
    to that value, and writing it under a key of the store and reading the
    key back yields it.  A byte sequence, nested anywhere, is written as
    its tagged form, which the reviver turns back into the byte sequence. *)
Theorem write_then_read_restores_value :
  forall (config : S3Config) (key : string) (v : value) (st : Store),
    serializable v = true ->
    untagged v = true ->
    (exists s, JSON_stringify v = Some s /\ JSON_parse s BufferJSON_reviver = Ok v)
    /\ snd (readData config key (fst (writeData config v key st))) = Ok v
    /\ (forall bs,
          JSON_stringify (VBuf bs) = JSON_stringify (BufferJSON_replacer (VBuf bs))
          /\ BufferJSON_reviver (BufferJSON_replacer (VBuf bs)) = VBuf bs).
Proof.
  intros config key v st Hs Hu. split; [exact (codec_round_trip v Hs Hu)|]. split.
  - rewrite store_readData. cbn [snd]. f_equal.
    exact (store_read_after_write config key v st Hs Hu).
  - intros bs. rewrite !JSON_stringify_written, serialize_tagged.
    cbn [BufferJSON_replacer]. rewrite as_buffer_tagged. split; reflexivity.
Qed.

(** C2, amended, at a record holding the bytes [0, 1, 255], written under
    "sender-key-abc.json". *)
Lemma write_then_read_restores_value_witness :
  serializable sender_key = true
  /\ untagged sender_key = true
  /\ snd (readData sample_config "sender-key-abc.json"
            (fst (writeData sample_config sender_key "sender-key-abc.json" empty_store)))
     = Ok sender_key.
Proof.
  assert (Hs : serializable sender_key = true) by (vm_compute; reflexivity).
  assert (Hu : untagged sender_key = true) by (vm_compute; reflexivity).
  split; [exact Hs|]. split; [exact Hu|].
  destruct (write_then_read_restores_value sample_config "sender-key-abc.json"
              sender_key empty_store Hs Hu) as (_ & Hread & _).
  exact Hread.
Defined.

(** C1, as the specification states it, fails, on the empty store and with
    the value {foo: "bar"}, in three ways.  The identifiers "a:b" and "a-b"
    of one category resolve to one object key, so that both are read from
    one object: [keys.get] binds both to null, the remove of the second
    having deleted what was written for the first.  The identifier
    "__proto__" is bound to nothing: the assignment replaces the prototype
    of the result.  And in the category "app-state-sync-key" the value
    handed back is what the conversion makes of the stored one: with a
    conversion that throws, [keys.get] rejects. *)
Lemma keys_set_then_get_is_not_always_a_map :
  ~ behaves_as_map Ok sample_config "session" "a:b" "a-b" "c" foo_bar empty_store
  /\ ~ behaves_as_map Ok sample_config "pre-key" "__proto__" "2" "3" foo_bar empty_store
  /\ ~ behaves_as_map always_throws sample_config "app-state-sync-key" "1" "2" "3"
         foo_bar empty_store.
Proof.
  repeat split; intros (st1 & st2 & data & Hset & Hget & H1 & _);
    apply (f_equal fst) in Hset; cbn [fst] in Hset; subst st1;
    vm_compute in Hget;
    first [ discriminate Hget
          | injection Hget as _ <-; vm_compute in H1; discriminate H1 ].
Qed.

(** C1, amended.  [keys.set] followed by [keys.get] behaves as a key-value
    map on identifiers other than "__proto__" whose keys resolve to
    distinct object keys.  In every category, after
    [keys.set({ category: { id1: v, id2: null } })] with [v] truthy and
    carried by the codec, on a store that holds nothing for [id3],
    [keys.get(category, [id1, id2, id3])] resolves to an object that binds
    [id1] to [w] and both [id2] (removed) and [id3] (never written) to
    null, and nothing else; [w] is [v], or what the conversion returns for
    [v] in the category "app-state-sync-key". *)
Theorem keys_set_then_get :
  forall (fromObject : value -> result value) (config : S3Config)
         (category id1 id2 id3 : string) (v w : value) (st : Store),
    ToBoolean v = true ->
    serializable v = true ->
    untagged v = true ->
    delivered fromObject category v = Ok w ->
    id1 <> "__proto__" -> id2 <> "__proto__" -> id3 <> "__proto__" ->
    location config (signal_key category id1) <> location config (signal_key category id2) ->
    location config (signal_key category id1) <> location config (signal_key category id3) ->
    objects st !! location config (signal_key category id3) = None ->
    exists (st1 st2 : Store) (data : JSObject),
      keys_set config [(category, [(id1, v); (id2, VNull)])] st = (st1, Ok tt)
      /\ keys_get fromObject config category [id1; id2; id3] st1 = (st2, Ok data)
      /\ own data = <[id3 := VNull]> (<[id2 := VNull]> (<[id1 := w]> ∅))
      /\ proto data = ObjectPrototype
      /\ own data !! id1 = Some w
      /\ own data !! id2 = Some VNull
      /\ own data !! id3 = Some VNull
      /\ (category <> "app-state-sync-key" -> w = v).
Proof.
  intros fromObject config category id1 id2 id3 v w st
         Hv Hs Hu Hw Hp1 Hp2 Hp3 H12 H13 Hfresh.
  assert (Hid12 : id1 <> id2) by (intros ->; apply H12; reflexivity).
  assert (Hid13 : id1 <> id3) by (intros ->; apply H13; reflexivity).
  pose (st1 := fst (removeData config (signal_key category id2)
                      (fst (writeData config v (signal_key category id1) st)))).
  assert (Hset : keys_set config [(category, [(id1, v); (id2, VNull)])] st = (st1, Ok tt)).
  { unfold keys_set, keys_set_tasks, bind, Promise_all, resolve.
    cbn [flat_map map fst snd app ToBoolean settle]. rewrite Hv.
    change (category +:+ "-" +:+ id1 +:+ ".json") with (signal_key category id1).
    change (category +:+ "-" +:+ id2 +:+ ".json") with (signal_key category id2).
    subst st1. rewrite store_writeData, store_removeData. reflexivity. }
  assert (H1 : stored_value config st1 (signal_key category id1) = v).
  { subst st1. rewrite store_removeData. unfold stored_value. cbn [fst objects].
    rewrite lookup_delete_ne by congruence.
    exact (store_read_after_write config (signal_key category id1) v st Hs Hu). }
  assert (H2 : stored_value config st1 (signal_key category id2) = VNull).
  { subst st1. rewrite store_removeData. unfold stored_value. cbn [fst objects].
    rewrite lookup_delete_eq. reflexivity. }
  assert (H3 : stored_value config st1 (signal_key category id3) = VNull).
  { subst st1. rewrite store_removeData, store_writeData.
    unfold stored_value. cbn [fst objects].
    destruct (decide (location config (signal_key category id2)
                      = location config (signal_key category id3))) as [<-|Hne].
    - rewrite lookup_delete_eq. reflexivity.
    - rewrite lookup_delete_ne, lookup_insert_ne, Hfresh by congruence. reflexivity. }
  assert (Hnull : delivered fromObject category VNull = Ok VNull).
  { unfold delivered. cbn [ToBoolean]. rewrite andb_false_r. reflexivity. }
  assert (Hplain : assign_all [(id1, w); (id2, VNull); (id3, VNull)]
                   = Ok {| own := <[id3 := VNull]> (<[id2 := VNull]> (<[id1 := w]> ∅));
                           proto := ObjectPrototype |}).
  { rewrite assign_all_plain; [reflexivity|].
    cbn [map fst]. intros [Heq|[Heq|[Heq|[]]]]; congruence. }
  eexists st1, _, _. split; [exact Hset|]. split.
  { rewrite store_keys_get_any. cbn [map]. rewrite H1, H2, H3, Hw, Hnull.
    cbn [gather]. rewrite Hplain. reflexivity. }
  cbn [own proto]. split; [reflexivity|]. split; [reflexivity|].
  split; [|split; [|split]].
  - destruct (decide (id3 = id2)) as [->|Hid23].
    + rewrite lookup_insert_ne, lookup_insert_ne, lookup_insert_eq by congruence.
      reflexivity.
    + rewrite lookup_insert_ne, lookup_insert_ne, lookup_insert_eq by congruence.
      reflexivity.
  - destruct (decide (id3 = id2)) as [->|Hid23].
    + rewrite lookup_insert_eq. reflexivity.
    + rewrite lookup_insert_ne, lookup_insert_eq by congruence. reflexivity.
  - rewrite lookup_insert_eq. reflexivity.
  - intros Hcategory. unfold delivered in Hw.
    destruct (String.eqb_spec category "app-state-sync-key") as [Heq|_]; [contradiction|].
    cbn [andb] in Hw. congruence.
Qed.

(** C1, amended, at the scenario of the specification: category "pre-key",
    identifiers "1", "2", "3" and the value {foo: "bar"}. *)
Lemma keys_set_then_get_witness :
  exists (st1 st2 : Store) (data : JSObject),
    keys_set sample_config sample_data empty_store = (st1, Ok tt)
    /\ keys_get Ok sample_config "pre-key" ["1"; "2"; "3"] st1 = (st2, Ok data)
    /\ own data = <["3" := VNull]> (<["2" := VNull]> (<["1" := foo_bar]> ∅))
    /\ own data !! "1" = Some foo_bar
    /\ own data !! "2" = Some VNull
    /\ own data !! "3" = Some VNull.
Proof.
  assert (Hp1 : "1" <> "__proto__") by discriminate.
  assert (Hp2 : "2" <> "__proto__") by discriminate.
  assert (Hp3 : "3" <> "__proto__") by discriminate.
  assert (H12 : location sample_config (signal_key "pre-key" "1")
                <> location sample_config (signal_key "pre-key" "2"))
    by (vm_compute; discriminate).
  assert (H13 : location sample_config (signal_key "pre-key" "1")
                <> location sample_config (signal_key "pre-key" "3"))
    by (vm_compute; discriminate).
  assert (Hfresh : objects empty_store
                   !! location sample_config (signal_key "pre-key" "3") = None)
    by reflexivity.
  destruct (keys_set_then_get Ok sample_config "pre-key" "1" "2" "3" foo_bar foo_bar
              empty_store eq_refl eq_refl eq_refl eq_refl Hp1 Hp2 Hp3 H12 H13 Hfresh)
    as (st1 & st2 & data & Hset & Hget & Hown & _ & H1 & H2 & H3 & _).
  exists st1, st2, data. auto 10.
Defined.

(** C7, as the specification states it, fails.  Credentials that hold a
    property set to [undefined] are not written with that property, so the
    credentials a fresh handle reads after [saveCreds()] lack it: they are
    not those of the first handle. *)
Lemma undefined_fields_do_not_survive :
  ~ (forall (initAuthCreds initAuthCreds' : unit -> value)
            (fromObject : value -> result value) (config : S3Config) (st : Store),
       objects st !! location config "creds.json" = None ->
       exists (st1 st2 st3 : Store) (h1 h2 : Handle),
         useS3AuthState initAuthCreds fromObject config st = (st1, Ok h1)
         /\ creds (state h1) = initAuthCreds tt
         /\ saveCreds h1 st1 = (st2, Ok tt)
         /\ useS3AuthState initAuthCreds' fromObject config st2 = (st3, Ok h2)
         /\ creds (state h2) = creds (state h1)).
Proof.
  intros Hclaim.
  destruct (Hclaim (fun _ => fresh_creds Byte.x11) (fun _ => fresh_creds Byte.x11)
              Ok sample_config empty_store eq_refl)
    as (st1 & st2 & st3 & h1 & h2 & Hinit & Hcreds & Hsave & Hagain & Hsame).
  unfold useS3AuthState, bind, resolve in Hinit. rewrite store_readData in Hinit.
  injection Hinit as <- <-. cbn [saveCreds state creds] in *.
  rewrite store_writeData in Hsave. injection Hsave as <-.
  unfold useS3AuthState, bind, resolve in Hagain. rewrite store_readData in Hagain.
  cbn [objects] in Hagain. rewrite lookup_insert_eq in Hagain.
  injection Hagain as _ <-. cbn [state creds] in Hsame.
  vm_compute in Hsame. discriminate Hsame.
Qed.

(** C7, amended.  Initialisation reads "creds.json".  When the store holds
    no such object, [state.creds] is what the credential-initialisation
    routine returns; after [saveCreds()], initialising a fresh handle
    against the same bucket and prefix yields those credentials as JSON
    carries them, whatever the routine would return this time: a property
    that held [undefined] is absent (an [undefined] element of an array is
    null) and everything else is equal, byte sequences included.  They are
    the credentials of the first handle when these hold no [undefined].
    The credentials are taken to be truthy, their numbers exact, and no
    plain object in what is written to have the tagged form. *)
Theorem creds_survive_save_and_reinit :
  forall (initAuthCreds initAuthCreds' : unit -> value)
         (fromObject : value -> result value) (config : S3Config) (st : Store),
    objects st !! location config "creds.json" = None ->
    ToBoolean (initAuthCreds tt) = true ->
    writable (initAuthCreds tt) = true ->
    untagged (json_image (initAuthCreds tt)) = true ->
    exists (st1 st2 st3 : Store) (h1 h2 : Handle),
      useS3AuthState initAuthCreds fromObject config st = (st1, Ok h1)
      /\ requests st1 = requests st ++ [get_command config "creds.json"]
      /\ creds (state h1) = initAuthCreds tt
      /\ saveCreds h1 st1 = (st2, Ok tt)
      /\ useS3AuthState initAuthCreds' fromObject config st2 = (st3, Ok h2)
      /\ creds (state h2) = json_image (creds (state h1))
      /\ (serializable (initAuthCreds tt) = true -> creds (state h2) = creds (state h1)).
Proof.
  intros initAuthCreds initAuthCreds' fromObject config st Hfresh Hv Hw Hu.
  assert (Hd : is_undefined (initAuthCreds tt) = false)
    by (destruct (initAuthCreds tt); try reflexivity; discriminate).
  destruct (codec_image _ Hw Hu Hd) as (s & Hstr & _).
  pose proof (decoded_stringified_image _ s Hw Hu Hv Hstr) as Hdecoded.
  eexists _, _, _, _, _.
  split.
  { unfold useS3AuthState, bind, resolve. rewrite store_readData, Hfresh.
    cbn [ToBoolean]. reflexivity. }
  split; [reflexivity|]. split; [reflexivity|].
  split; [cbn [saveCreds]; rewrite store_writeData; reflexivity|].
  split.
  { unfold useS3AuthState, bind, resolve. rewrite store_readData.
    cbn [objects]. rewrite lookup_insert_eq, Hstr. cbn [default].
    change (id s) with s. rewrite Hdecoded, ToBoolean_json_image, Hv. reflexivity. }
  cbn [state creds]. split; [reflexivity|].
  intros Hs. apply json_image_serializable. exact Hs.
Qed.

(** C7, amended, on the empty store, at credentials two of whose
    properties hold [undefined], the routine returning other credentials
    the second time. *)
Lemma creds_survive_save_and_reinit_witness :
  exists (st1 st2 st3 : Store) (h1 h2 : Handle),
    useS3AuthState (fun _ => fresh_creds Byte.x11) Ok sample_config empty_store
      = (st1, Ok h1)
    /\ creds (state h1) = fresh_creds Byte.x11
    /\ saveCreds h1 st1 = (st2, Ok tt)
    /\ useS3AuthState (fun _ => fresh_creds Byte.x77) Ok sample_config st2
       = (st3, Ok h2)
    /\ creds (state h2) = json_image (fresh_creds Byte.x11).
Proof.
  assert (Hw : writable (fresh_creds Byte.x11) = true) by (vm_compute; reflexivity).
  assert (Hu : untagged (json_image (fresh_creds Byte.x11)) = true)
    by (vm_compute; reflexivity).
  destruct (creds_survive_save_and_reinit
              (fun _ => fresh_creds Byte.x11) (fun _ => fresh_creds Byte.x77)
              Ok sample_config empty_store eq_refl eq_refl Hw Hu)
    as (st1 & st2 & st3 & h1 & h2 & Hinit & _ & Hcreds & Hsave & Hagain & Himage & _).
  exists st1, st2, st3, h1, h2. rewrite Hcreds in Himage. auto 10.
Defined.

(* ===================================================================== *)
(** ** Further properties *)
(* ===================================================================== *)

Module KeyFacts.

Local Open Scope string_scope.
Local Open Scope list_scope.

Lemma sanitize_clean_id k : clean k = true -> sanitize k = k.
Proof.
  unfold clean. induction k as [|c k IH]; [reflexivity|].
  cbn [occurs sanitize]. intros Hk.
  apply andb_true_iff in Hk as [Hslash Hcolon].
  apply negb_true_iff, orb_false_iff in Hslash as [Hc1 Hk1].
  apply negb_true_iff, orb_false_iff in Hcolon as [Hc2 Hk2].
  rewrite Hc1, Hc2, IH; [reflexivity|]. rewrite Hk1, Hk2. reflexivity.
Qed.

Lemma sanitize_is_clean k : clean (sanitize k) = true.
Proof.
  unfold clean. destruct (sanitize_clean k) as [-> ->]. reflexivity.
Qed.

Lemma length_append s t : String.length (s +:+ t) = String.length s + String.length t.
Proof. induction s as [|c s IH]; [reflexivity|]. simpl. rewrite IH. reflexivity. Qed.

Lemma sanitize_length k :
  String.length (sanitize k) = String.length k + count_char "/" k.
Proof.
  induction k as [|c k IH]; [reflexivity|].
  cbn [sanitize count_char]. rewrite length_append, IH.
  destruct (Ascii.eqb_spec c "/") as [->|_]; [cbn; lia|].
  destruct (Ascii.eqb c ":"); cbn; lia.
Qed.

End KeyFacts.

Import KeyFacts.

(** X1.  [fixFileName] returns a key unchanged exactly when the key holds
    neither "/" nor ":"; applying it twice is applying it once. *)
Theorem fixFileName_fixes_exactly_clean_keys :
  forall k : string,
    (fixFileName (Some k) = k <-> clean k = true)
    /\ fixFileName (Some (fixFileName (Some k))) = fixFileName (Some k).
Proof.
  intros k. rewrite !fixFileName_sanitize. split; [split|].
  - intros Hk. rewrite <- Hk. apply sanitize_is_clean.
  - apply sanitize_clean_id.
  - apply sanitize_clean_id, sanitize_is_clean.
Qed.

(** X2.  The object key is as long as the prefix and the key together,
    plus one for each "/" of the key: sanitising lengthens a key by the
    number of its slashes and by nothing else. *)
Theorem objectKey_length :
  forall (config : S3Config) (key : string),
    String.length (objectKey config key)
    = String.length (default "" (prefix config)) + String.length key
      + count_char "/" key.
Proof.
  intros config key. unfold objectKey.
  rewrite length_append, fixFileName_sanitize, sanitize_length. lia.
Qed.

(** X3.  Under one configuration, two different keys that hold neither
    "/" nor ":" resolve to different object keys. *)
Theorem clean_keys_resolve_apart :
  forall (config : S3Config) (k1 k2 : string),
    clean k1 = true -> clean k2 = true -> k1 <> k2 ->
    objectKey config k1 <> objectKey config k2.
Proof.
  intros config k1 k2 H1 H2 Hne Heq. apply Hne. unfold objectKey in Heq.
  apply String.app_inj in Heq. rewrite !fixFileName_sanitize in Heq.
  rewrite !sanitize_clean_id in Heq by assumption. exact Heq.
Qed.

(** X3 at "creds.json" and "pre-key-1.json". *)
Lemma clean_keys_resolve_apart_witness :
  objectKey sample_config "creds.json" <> objectKey sample_config "pre-key-1.json".
Proof.
  apply (clean_keys_resolve_apart sample_config "creds.json" "pre-key-1.json");
    [reflexivity|reflexivity|discriminate].
Defined.

(** X4.  Two keys that sanitise to the same name share one object: what is
    written under one is read under the other, and removing one removes
    the other. *)
Theorem colliding_keys_share_an_object :
  forall (config : S3Config) (k1 k2 : string) (v : value) (st : Store),
    fixFileName (Some k1) = fixFileName (Some k2) ->
    serializable v = true -> untagged v = true ->
    snd (readData config k2 (fst (writeData config v k1 st))) = Ok v
    /\ snd (readData config k2
              (fst (removeData config k1 (fst (writeData config v k2 st))))) = Ok VNull.
Proof.
  intros config k1 k2 v st Hsame Hs Hu.
  assert (Hloc : location config k1 = location config k2).
  { unfold location, objectKey. rewrite Hsame. reflexivity. }
  split.
  - rewrite store_readData, <- Hloc. cbn [snd]. f_equal.
    exact (store_read_after_write config k1 v st Hs Hu).
  - rewrite store_readData, store_removeData, Hloc. cbn [snd fst objects].
    rewrite lookup_delete_eq. reflexivity.
Qed.

(** X4 at the session keys of the identifiers "a:b" and "a-b". *)
Lemma colliding_keys_share_an_object_witness :
  signal_key "session" "a:b" <> signal_key "session" "a-b"
  /\ snd (readData sample_config (signal_key "session" "a-b")
            (fst (writeData sample_config foo_bar (signal_key "session" "a:b")
                    empty_store))) = Ok foo_bar.
Proof.
  split; [discriminate|].
  destruct (colliding_keys_share_an_object sample_config
              (signal_key "session" "a:b") (signal_key "session" "a-b")
              foo_bar empty_store eq_refl eq_refl eq_refl) as [Hread _].
  exact Hread.
Defined.

(** X5.  The last write wins: after two writes under one key, the key
    reads as the second value, and the store holds what the second write
    alone would have left, whatever the first value was. *)
Theorem last_write_wins :
  forall (config : S3Config) (key : string) (v1 v2 : value) (st : Store),
    serializable v2 = true -> untagged v2 = true ->
    snd (readData config key
           (fst (writeData config v2 key (fst (writeData config v1 key st))))) = Ok v2
    /\ objects (fst (writeData config v2 key (fst (writeData config v1 key st))))
       = objects (fst (writeData config v2 key st)).
Proof.
  intros config key v1 v2 st Hs Hu. split.
  - rewrite store_readData. cbn [snd]. f_equal.
    exact (store_read_after_write config key v2 (fst (writeData config v1 key st)) Hs Hu).
  - rewrite !store_writeData. cbn [fst objects]. apply insert_insert_eq.
Qed.

(** X5 at two writes of "creds.json". *)
Lemma last_write_wins_witness :
  snd (readData sample_config "creds.json"
         (fst (writeData sample_config (sample_creds Byte.x77) "creds.json"
                 (fst (writeData sample_config (sample_creds Byte.x11) "creds.json"
                         empty_store)))))
  = Ok (sample_creds Byte.x77).
Proof.
  assert (Hs : serializable (sample_creds Byte.x77) = true) by (vm_compute; reflexivity).
  assert (Hu : untagged (sample_creds Byte.x77) = true) by (vm_compute; reflexivity).
  destruct (last_write_wins sample_config "creds.json" (sample_creds Byte.x11)
              (sample_creds Byte.x77) empty_store Hs Hu) as [Hread _].
  exact Hread.
Defined.

(** X6.  Removing undoes a write: after [writeData] then [removeData] under
    one key the key reads as null and the store holds no object for it,
    whatever it held before; removing once more changes nothing. *)
Theorem remove_undoes_write :
  forall (config : S3Config) (key : string) (v : value) (st : Store),
    snd (readData config key
           (fst (removeData config key (fst (writeData config v key st))))) = Ok VNull
    /\ objects (fst (removeData config key (fst (writeData config v key st))))
       = delete (location config key) (objects st)
    /\ objects (fst (removeData config key (fst (removeData config key st))))
       = objects (fst (removeData config key st)).
Proof.
  intros config key v st.
  rewrite store_readData, !store_removeData, store_writeData.
  cbn [fst snd objects]. rewrite lookup_delete_eq, delete_insert_eq, delete_delete_eq.
  repeat split.
Qed.

(** X7.  Operations on one object leave every other object alone: a write
    or a remove under one (bucket, object key) does not change what a read
    under a different one returns. *)
Theorem other_objects_are_untouched :
  forall (config config' : S3Config) (key key' : string) (v : value) (st : Store),
    location config key <> location config' key' ->
    snd (readData config' key' (fst (writeData config v key st)))
      = snd (readData config' key' st)
    /\ snd (readData config' key' (fst (removeData config key st)))
       = snd (readData config' key' st).
Proof.
  intros config config' key key' v st Hne.
  rewrite !store_readData, store_writeData, store_removeData.
  cbn [fst snd objects]. rewrite lookup_insert_ne, lookup_delete_ne by exact Hne.
  split; reflexivity.
Qed.

(** X7 at one key under two buckets. *)
Lemma other_objects_are_untouched_witness :
  snd (readData {| bucket := "wa-archive"; prefix := Some "tenant:7/" |} "creds.json"
         (fst (writeData sample_config foo_bar "creds.json" empty_store)))
  = Ok VNull.
Proof.
  assert (Hne : location sample_config "creds.json"
                <> location {| bucket := "wa-archive"; prefix := Some "tenant:7/" |}
                     "creds.json") by (vm_compute; discriminate).
  destruct (other_objects_are_untouched sample_config
              {| bucket := "wa-archive"; prefix := Some "tenant:7/" |}
              "creds.json" "creds.json" foo_bar empty_store Hne) as [Hwrite _].
  rewrite Hwrite. reflexivity.
Defined.

Module GetFacts.

Local Open Scope string_scope.
Local Open Scope list_scope.

Lemma dom_fold_insert (entries : list (string * value)) (m : gmap string value) :
  dom (fold_left (fun data e => <[fst e := snd e]> data) entries m)
  = list_to_set (map fst entries) ∪ dom m.
Proof.
  revert m. induction entries as [|[k x] entries IH]; intros m.
  - cbn [fold_left map]. rewrite list_to_set_nil, (left_id_L ∅ (∪)). reflexivity.
  - cbn [fold_left map fst snd]. rewrite IH, dom_insert_L, list_to_set_cons.
    rewrite (assoc_L (∪)), (comm_L (∪) (list_to_set (map fst entries)) {[k]}).
    reflexivity.
Qed.

Lemma lookup_fold_insert (f : string -> value) (ids : list string)
    (m : gmap string value) (id : string) :
  fold_left (fun data e => <[fst e := snd e]> data) (map (fun id => (id, f id)) ids) m !! id
  = if decide (id ∈ ids) then Some (f id) else m !! id.
Proof.
  revert m. induction ids as [|i ids IH]; intros m; [reflexivity|].
  cbn [map fold_left fst snd]. rewrite IH.
  destruct (decide (id ∈ ids)) as [Hin|Hout].
  - rewrite decide_True by (right; exact Hin). reflexivity.
  - destruct (decide (i = id)) as [->|Hne].
    + rewrite lookup_insert_eq, decide_True by left. reflexivity.
    + rewrite lookup_insert_ne by exact Hne.
      rewrite decide_False; [reflexivity|].
      intros Hin. apply elem_of_cons in Hin as [Heq|Hin]; [congruence|contradiction].
Qed.

Section any_client.
Context {C : Type} `{S3Client C}.
Variable fromObject : value -> result value.
Variable config : S3Config.
Variable type : string.
Hypothesis Htype : type <> "app-state-sync-key".

Lemma get_tasks_fulfilled ids (c : C) :
  exists entries,
    snd (settle (map (fun id =>
        await value ⇐ readData config (type +:+ "-" +:+ id +:+ ".json");
        await value ⇐ (if String.eqb type "app-state-sync-key" && ToBoolean value
                       then of_result (fromObject value)
                       else resolve value);
        resolve (id, value)) ids) c) = map Ok entries
    /\ map fst entries = ids.
Proof.
  revert c. induction ids as [|id ids IH]; intros c.
  - exists []. split; reflexivity.
  - cbn [map settle]. unfold bind at 1 2. rewrite readData_send.
    destruct (String.eqb_spec type "app-state-sync-key") as [Heq|_]; [contradiction|].
    cbn [andb]. unfold resolve at 1 2.
    destruct (IH (fst (send (get_command config (type +:+ "-" +:+ id +:+ ".json")) c)))
      as (entries & Hrs & Hids).
    destruct (settle _ _) as [c2 rs]. cbn [snd] in *.
    eexists ((id, _) :: entries). cbn [map fst]. rewrite Hrs, Hids.
    split; reflexivity.
Qed.
End any_client.

(** The world a [keys.get] task leaves on the in-memory store, whatever the
    category and the conversion. *)
Lemma store_get_task_world fromObject config type id (st : Store) :
  fst ((await value ⇐ readData config (type +:+ "-" +:+ id +:+ ".json");
        await value ⇐ (if String.eqb type "app-state-sync-key" && ToBoolean value
                       then of_result (fromObject value)
                       else resolve value);
        resolve (id, value)) st)
  = {| objects := objects st;
       requests := requests st ++ [get_command config (signal_key type id)] |}.
Proof.
  unfold bind at 1 2. rewrite store_readData.
  destruct (_ && _); [|reflexivity].
  unfold of_result. destruct (fromObject _); reflexivity.
Qed.

Lemma store_get_tasks_world fromObject config type ids (st : Store) :
  fst (settle (map (fun id =>
      await value ⇐ readData config (type +:+ "-" +:+ id +:+ ".json");
      await value ⇐ (if String.eqb type "app-state-sync-key" && ToBoolean value
                     then of_result (fromObject value)
                     else resolve value);
      resolve (id, value)) ids) st)
  = {| objects := objects st;
       requests := requests st ++ map (fun id => get_command config (signal_key type id)) ids |}.
Proof.
  revert st. induction ids as [|id ids IH]; intros st.
  - cbn. rewrite app_nil_r. destruct st; reflexivity.
  - cbn [map settle].
    pose proof (store_get_task_world fromObject config type id st) as Hw.
    destruct ((await value ⇐ readData config (type +:+ "-" +:+ id +:+ ".json");
               await value ⇐ (if String.eqb type "app-state-sync-key" && ToBoolean value
                              then of_result (fromObject value)
                              else resolve value);
               resolve (id, value)) st) as [st1 r].
    cbn [fst] in Hw. subst st1. specialize (IH {| objects := objects st;
      requests := requests st ++ [get_command config (signal_key type id)] |}).
    destruct (settle _ _) as [st2 rs]. cbn [fst objects requests] in *.
    rewrite IH, <- app_assoc. reflexivity.
Qed.

End GetFacts.

Import GetFacts.

(** X8.  In every category but "app-state-sync-key", [keys.get] never
    rejects, whatever the client answers, as long as the identifier
    "__proto__" is not asked for; the object it resolves to then has the
    identifiers asked for as its own properties, and no other, and the
    prototype it was created with. *)
Theorem keys_get_never_rejects :
  forall {C : Type} `{S3Client C} (fromObject : value -> result value)
         (config : S3Config) (type : string) (ids : list string) (c : C),
    type <> "app-state-sync-key" ->
    ~ In "__proto__" ids ->
    exists (c' : C) (data : JSObject),
      keys_get fromObject config type ids c = (c', Ok data)
      /\ dom (own data) = list_to_set ids
      /\ proto data = ObjectPrototype.
Proof.
  intros C client fromObject config type ids c Htype Hproto.
  destruct (get_tasks_fulfilled fromObject config type Htype ids c) as (entries & Hrs & Hids).
  unfold keys_get. unfold bind at 1. unfold Promise_all.
  destruct (settle _ c) as [c' rs]. cbn [snd] in Hrs. subst rs.
  rewrite gather_all_ok. unfold of_result.
  rewrite assign_all_plain by (rewrite Hids; exact Hproto).
  eexists _, _. split; [reflexivity|]. cbn [own proto]. split; [|reflexivity].
  rewrite dom_fold_insert, Hids, dom_empty_L. apply (right_id_L ∅ (∪)).
Qed.

(** X8 at an unreachable service. *)
Lemma keys_get_never_rejects_witness :
  exists (c' : Offline) (data : JSObject),
    keys_get always_throws sample_config "pre-key" ["1"; "2"] offline = (c', Ok data)
    /\ dom (own data) = list_to_set ["1"; "2"]
    /\ proto data = ObjectPrototype.
Proof.
  apply (keys_get_never_rejects always_throws sample_config "pre-key" ["1"; "2"] offline).
  - discriminate.
  - cbn. intros [H|[H|[]]]; discriminate H.
Defined.

(** X9.  [keys.get] only reads: in any category and whatever the conversion
    does, it changes no object of the store, and the commands it sends are
    one GetObject command per identifier asked for (their order is not
    fixed by the program and is left open). *)
Theorem keys_get_only_reads :
  forall (fromObject : value -> result value) (config : S3Config) (type : string)
         (ids : list string) (st : Store),
    objects (fst (keys_get fromObject config type ids st)) = objects st
    /\ exists sent,
         requests (fst (keys_get fromObject config type ids st)) = requests st ++ sent
         /\ sent ≡ₚ map (fun id => get_command config (signal_key type id)) ids.
Proof.
  intros fromObject config type ids st.
  rewrite store_keys_get_any. cbn [fst objects requests].
  split; [reflexivity|]. eexists. split; reflexivity.
Qed.

(** X10.  In every category but "app-state-sync-key", the identifier
    "__proto__" not being asked for, [keys.get] binds each identifier asked
    for to the decoded object stored under its key (the body lying inside
    the fragment of JSON modelled), null when there is none, and binds no
    other identifier. *)
Theorem keys_get_binds_stored_values :
  forall (fromObject : value -> result value) (config : S3Config) (type : string)
         (ids : list string) (st : Store),
    type <> "app-state-sync-key" ->
    ~ In "__proto__" ids ->
    exists (st' : Store) (data : JSObject),
      keys_get fromObject config type ids st = (st', Ok data)
      /\ (forall id, In id ids ->
                     modelled_at config st (signal_key type id) = true ->
                     own data !! id = Some (stored_value config st (signal_key type id)))
      /\ (forall id, In id ids ->
                     objects st !! location config (signal_key type id) = None ->
                     own data !! id = Some VNull)
      /\ (forall id, ~ In id ids -> own data !! id = None).
Proof.
  intros fromObject config type ids st Htype Hproto.
  rewrite (store_keys_get fromObject config type Htype ids st).
  rewrite assign_all_plain by (rewrite map_map, map_id; exact Hproto).
  eexists _, _. split; [reflexivity|]. cbn [own].
  split; [|split]; intros id Hid; rewrite <- list_elem_of_In in Hid;
    rewrite lookup_fold_insert.
  - intros _. rewrite decide_True by exact Hid. reflexivity.
  - intros Hnone. rewrite decide_True by exact Hid.
    unfold stored_value. rewrite Hnone. reflexivity.
  - rewrite decide_False by exact Hid. reflexivity.
Qed.

(** X10 at a store holding one session record, read together with an
    identifier that has none. *)
Lemma keys_get_binds_stored_values_witness :
  exists (st' : Store) (data : JSObject),
    keys_get always_throws sample_config "session" ["7"; "8"]
      (fst (writeData sample_config sender_key "session-7.json" empty_store))
    = (st', Ok data)
    /\ own data !! "7" = Some sender_key
    /\ own data !! "8" = Some VNull
    /\ own data !! "9" = None.
Proof.
  assert (Htype : "session" <> "app-state-sync-key") by discriminate.
  assert (Hproto : ~ In "__proto__" ["7"; "8"])
    by (cbn; intros [H|[H|[]]]; discriminate H).
  destruct (keys_get_binds_stored_values always_throws sample_config "session" ["7"; "8"]
              (fst (writeData sample_config sender_key "session-7.json" empty_store))
              Htype Hproto) as (st' & data & Hget & Hin & Hnone & Hout).
  assert (H7 : In "7" ["7"; "8"]) by (cbn; auto).
  assert (H8 : In "8" ["7"; "8"]) by (cbn; auto).
  assert (Hmodelled : modelled_at sample_config
            (fst (writeData sample_config sender_key "session-7.json" empty_store))
            (signal_key "session" "7") = true) by (vm_compute; reflexivity).
  assert (Hvalue : stored_value sample_config
            (fst (writeData sample_config sender_key "session-7.json" empty_store))
            (signal_key "session" "7") = sender_key) by (vm_compute; reflexivity).
  exists st', data. split; [exact Hget|].
  split; [rewrite (Hin "7" H7 Hmodelled); f_equal; exact Hvalue|].
  split; [apply (Hnone "8" H8); vm_compute; reflexivity|].
  apply Hout. cbn. intros [H|[H|[]]]; discriminate H.
Defined.

(** X11.  In the category "app-state-sync-key", [keys.get] passes a stored
    value through the conversion only when it is truthy: an identifier with
    nothing stored (or a falsy value) is assigned what was read, the
    conversion not being called; a truthy value is replaced by its
    conversion; and a throw of the conversion rejects [keys.get].  The
    stored body is taken to lie inside the fragment of JSON modelled. *)
Theorem app_state_sync_key_is_converted :
  forall (fromObject : value -> result value) (config : S3Config) (id : string)
         (st : Store),
    modelled_at config st (signal_key "app-state-sync-key" id) = true ->
    snd (keys_get fromObject config "app-state-sync-key" [id] st)
    = let v := stored_value config st (signal_key "app-state-sync-key" id) in
      if ToBoolean v then
        match fromObject v with
        | Ok w => assign id w empty_object
        | Err e => Err e
        end
      else assign id v empty_object.
Proof.
  intros fromObject config id st _.
  rewrite store_keys_get_any. cbn [snd map gather]. unfold delivered.
  change (String.eqb "app-state-sync-key" "app-state-sync-key") with true.
  cbn [andb]. cbv zeta.
  destruct (ToBoolean (stored_value config st (signal_key "app-state-sync-key" id))).
  - destruct (fromObject _) as [w|e]; reflexivity.
  - reflexivity.
Qed.

(** X11 at a store holding one key record, with a conversion that wraps
    what it is given. *)
Lemma app_state_sync_key_is_converted_witness :
  modelled_at sample_config
    (fst (writeData sample_config sender_key "app-state-sync-key-AAAA.json" empty_store))
    (signal_key "app-state-sync-key" "AAAA") = true
  /\ snd (keys_get (fun v => Ok (VObj [("keyData", v)])) sample_config
            "app-state-sync-key" ["AAAA"]
            (fst (writeData sample_config sender_key "app-state-sync-key-AAAA.json"
                    empty_store)))
     = Ok {| own := {[ "AAAA" := VObj [("keyData", sender_key)] ]};
             proto := ObjectPrototype |}.
Proof.
  assert (Hmodelled : modelled_at sample_config
            (fst (writeData sample_config sender_key "app-state-sync-key-AAAA.json"
                    empty_store))
            (signal_key "app-state-sync-key" "AAAA") = true) by (vm_compute; reflexivity).
  split; [exact Hmodelled|].
  rewrite (app_state_sync_key_is_converted _ sample_config "AAAA" _ Hmodelled).
  vm_compute. reflexivity.
Defined.

(** X12.  In the category "app-state-sync-key", one identifier whose stored
    value is truthy and makes the conversion throw rejects the whole
    [keys.get], whatever the other identifiers hold. *)
Theorem failed_conversion_rejects_keys_get :
  forall (fromObject : value -> result value) (config : S3Config)
         (ids : list string) (id : string) (st : Store) (e : error),
    In id ids ->
    ToBoolean (stored_value config st (signal_key "app-state-sync-key" id)) = true ->
    fromObject (stored_value config st (signal_key "app-state-sync-key" id)) = Err e ->
    exists e', snd (keys_get fromObject config "app-state-sync-key" ids st) = Err e'.
Proof.
  intros fromObject config ids id st e Hin Hv Hthrow.
  apply list_elem_of_In, list_elem_of_lookup in Hin as [i Hi].
  set (task := (fun id : string =>
      await value ⇐ readData config ("app-state-sync-key" +:+ "-" +:+ id +:+ ".json");
      await value ⇐ (if String.eqb "app-state-sync-key" "app-state-sync-key"
                        && ToBoolean value
                     then of_result (fromObject value)
                     else resolve value);
      resolve (id, value)) : string -> promise Store (string * value)).
  assert (Htask : map task ids !! i = Some (task id))
    by (rewrite list_lookup_fmap, Hi; reflexivity).
  pose proof (settle_outcome (map task ids) st i (task id) Htask) as Hout.
  assert (Hworld : objects (world_before (map task ids) st i) = objects st).
  { unfold world_before. rewrite <- fmap_take.
    change (fmap task (take i ids)) with (map task (take i ids)). subst task.
    rewrite (store_get_tasks_world fromObject config "app-state-sync-key"). reflexivity. }
  assert (Hrun : snd (task id (world_before (map task ids) st i)) = Err e).
  { subst task. cbv beta. unfold bind at 1 2.
    change ("app-state-sync-key" +:+ "-" +:+ id +:+ ".json")
      with (signal_key "app-state-sync-key" id).
    rewrite store_readData, Hworld.
    fold (stored_value config st (signal_key "app-state-sync-key" id)).
    change (String.eqb "app-state-sync-key" "app-state-sync-key") with true.
    cbn [andb]. rewrite Hv. unfold of_result. rewrite Hthrow. reflexivity. }
  rewrite Hrun in Hout. destruct (gather_rejected _ _ _ Hout) as [e' He'].
  exists e'.
  change (keys_get fromObject config "app-state-sync-key" ids)
    with (await entries ⇐ Promise_all (map task ids);
          of_result (assign_all entries)).
  unfold bind at 1. unfold Promise_all.
  destruct (settle (map task ids) st) as [st' rs]. cbn [snd] in He'.
  rewrite He'. reflexivity.
Qed.

(** X12 at a store holding one key record, with a conversion that throws. *)
Lemma failed_conversion_rejects_keys_get_witness :
  exists e',
    snd (keys_get always_throws sample_config "app-state-sync-key" ["AAAA"; "BBBB"]
           (fst (writeData sample_config sender_key "app-state-sync-key-BBBB.json"
                   empty_store))) = Err e'.
Proof.
  apply (failed_conversion_rejects_keys_get always_throws sample_config
           ["AAAA"; "BBBB"] "BBBB" _ TypeError).
  - cbn. auto.
  - vm_compute. reflexivity.
  - reflexivity.
Defined.

Module SetFacts.

Local Open Scope string_scope.
Local Open Scope list_scope.

Lemma gather_first_rejection {A} (rs : list (result A)) e :
  gather rs = Err e -> exists i, rs !! i = Some (Err e).
Proof.
  induction rs as [|r rs IH]; [discriminate|]. cbn [gather].
  destruct r as [a|e0].
  - destruct (gather rs) as [l|e1]; [discriminate|].
    intros [= <-]. destruct (IH eq_refl) as [i Hi]. exists (S i). exact Hi.
  - intros [= <-]. exists 0. reflexivity.
Qed.

Lemma settle_length {C A} (tasks : list (promise C A)) c :
  length (snd (settle tasks c)) = length tasks.
Proof.
  revert c. induction tasks as [|t tasks IH]; intros c; [reflexivity|].
  cbn [settle]. destruct (t c) as [c1 r]. specialize (IH c1).
  destruct (settle tasks c1) as [c2 rs]. cbn [snd length] in *. rewrite IH. reflexivity.
Qed.

Lemma removals_fulfilled {C} `{S3Client C} config ts (c : C) :
  forallb (fun t => negb (ToBoolean (snd t))) ts = true ->
  Forall (fun r => is_rejected r = false) (snd (settle (map (task_of config) ts) c)).
Proof.
  revert c. induction ts as [|t ts IH]; intros c Hts; [constructor|].
  cbn [forallb] in Hts. apply andb_true_iff in Hts as [Ht Hts].
  apply negb_true_iff in Ht. cbn [map settle]. unfold task_of at 1. rewrite Ht.
  rewrite removeData_send. specialize (IH (fst (send (delete_command config
    (signal_key (fst (fst t)) (snd (fst t)))) c)) Hts).
  destruct (settle _ _) as [c2 rs]. cbn [snd] in *. constructor; [reflexivity|exact IH].
Qed.

Lemma fold_apply_elsewhere config ts objs loc :
  ~ In loc (map (triple_location config) ts) ->
  fold_left (apply_triple config) ts objs !! loc = objs !! loc.
Proof.
  revert objs. induction ts as [|t ts IH]; intros objs Hloc; [reflexivity|].
  cbn [map fold_left] in *. rewrite IH by (intros Hin; apply Hloc; right; exact Hin).
  assert (Hne : triple_location config t <> loc) by (intros Heq; apply Hloc; left; exact Heq).
  unfold apply_triple. destruct (ToBoolean (snd t)).
  - apply lookup_insert_ne. exact Hne.
  - apply lookup_delete_ne. exact Hne.
Qed.

Lemma fold_apply_own config ts objs t :
  NoDup (map (triple_location config) ts) -> In t ts ->
  fold_left (apply_triple config) ts objs !! triple_location config t
  = if ToBoolean (snd t) then Some (default "" (JSON_stringify (snd t))) else None.
Proof.
  revert objs. induction ts as [|t0 ts IH]; intros objs Hnd Hin; [destruct Hin|].
  cbn [map] in Hnd. apply NoDup_cons in Hnd as [Hfresh Hnd].
  cbn [fold_left]. destruct Hin as [->|Hin].
  - rewrite fold_apply_elsewhere by (rewrite <- list_elem_of_In; exact Hfresh).
    unfold apply_triple. destruct (ToBoolean (snd t)).
    + apply lookup_insert_eq.
    + apply lookup_delete_eq.
  - apply IH; assumption.
Qed.

End SetFacts.

Import SetFacts.

(** X13.  A [keys.set] that only removes never rejects: when every value
    of its argument is falsy, it resolves whatever the client answers. *)
Theorem keys_set_of_removals_never_rejects :
  forall {C : Type} `{S3Client C} (config : S3Config) (data : SignalDataSet) (c : C),
    forallb (fun t => negb (ToBoolean (snd t))) (triples data) = true ->
    exists c', keys_set config data c = (c', Ok tt).
Proof.
  intros C client config data c Hdata.
  pose proof (removals_fulfilled config (triples data) c Hdata) as Hall.
  unfold keys_set, bind, Promise_all, resolve. rewrite keys_set_tasks_triples.
  destruct (settle _ c) as [c' rs]. cbn [snd] in Hall.
  destruct (gather_fulfilled rs Hall) as [l ->]. eexists. reflexivity.
Qed.

(** X13 at an unreachable service. *)
Lemma keys_set_of_removals_never_rejects_witness :
  exists c',
    keys_set sample_config [("pre-key", [("1", VNull); ("2", VNull)]);
                            ("session", [("a:b", VNull)])] offline = (c', Ok tt).
Proof.
  apply (keys_set_of_removals_never_rejects sample_config _ offline). reflexivity.
Defined.

(** X14.  When [keys.set] rejects, it rejects with the rejection of one of
    its writes: some triple of its argument has a truthy value whose
    [writeData], run after the operations started before it, was rejected
    with that very error.  No remove ever makes [keys.set] reject. *)
Theorem keys_set_rejects_only_for_a_write :
  forall {C : Type} `{S3Client C} (config : S3Config) (data : SignalDataSet) (c : C)
         (e : error),
    snd (keys_set config data c) = Err e ->
    exists i category id v,
      triples data !! i = Some (category, id, v)
      /\ ToBoolean v = true
      /\ snd (writeData config v (signal_key category id)
                (world_before (keys_set_tasks config data) c i)) = Err e.
Proof.
  intros C client config data c e Hset.
  unfold keys_set, bind, Promise_all, resolve in Hset.
  pose proof (settle_length (keys_set_tasks config data) c) as Hlen.
  pose proof (fun i t => settle_outcome (keys_set_tasks config data) c i t) as Hout.
  destruct (settle (keys_set_tasks config data) c) as [c' rs]. cbn [snd] in *.
  destruct (gather rs) as [l|e0] eqn:Hgather; [discriminate|].
  injection Hset as ->.
  destruct (gather_first_rejection rs e Hgather) as [i Hi].
  assert (Hlt : i < length (keys_set_tasks config data)).
  { rewrite <- Hlen. apply lookup_lt_is_Some. eauto. }
  apply lookup_lt_is_Some in Hlt as [t Ht].
  specialize (Hout i t Ht). rewrite Hi in Hout. injection Hout as Hrun.
  rewrite keys_set_tasks_triples, list_lookup_fmap in Ht.
  destruct (triples data !! i) as [[[category id] v]|] eqn:Htriple; [|discriminate].
  injection Ht as <-. exists i, category, id, v. split; [exact Htriple|].
  unfold task_of in Hrun. cbn [fst snd] in Hrun.
  destruct (ToBoolean v); [split; [reflexivity|symmetry; exact Hrun]|].
  rewrite removeData_send in Hrun. discriminate Hrun.
Qed.

(** X14 at an unreachable service. *)
Lemma keys_set_rejects_only_for_a_write_witness :
  exists i category id v,
    triples sample_data !! i = Some (category, id, v)
    /\ ToBoolean v = true
    /\ snd (writeData sample_config v (signal_key category id)
              (world_before (keys_set_tasks sample_config sample_data) offline i))
       = Err (ServiceException "NetworkingError").
Proof.
  apply (keys_set_rejects_only_for_a_write sample_config sample_data offline
           (ServiceException "NetworkingError")).
  reflexivity.
Defined.

(** X15.  On the in-memory store [keys.set] always resolves; the commands
    it sends are one per triple of its argument, a PutObject for a truthy
    value and a DeleteObject otherwise (their order is not fixed by the
    program and is left open); and the objects it leaves are those of the
    triples applied in [for ... in] order, so that of two triples
    addressing one object the later one decides. *)
Theorem keys_set_on_store :
  forall (config : S3Config) (data : SignalDataSet) (st : Store),
    snd (keys_set config data st) = Ok tt
    /\ objects (fst (keys_set config data st))
       = fold_left (apply_triple config) (triples data) (objects st)
    /\ exists sent,
         requests (fst (keys_set config data st)) = requests st ++ sent
         /\ sent ≡ₚ map (command_of config) (triples data).
Proof.
  intros config data st.
  destruct (store_keys_set config data st) as [Hok Hreq].
  split; [exact Hok|]. split; [apply store_keys_set_objects|].
  eexists. split; [exact Hreq|reflexivity].
Qed.

(** X16.  [keys.set] followed by [keys.get] is a key-value map.  When the
    triples given to [keys.set] address pairwise different objects and
    their truthy values are carried by the codec, then afterwards every
    triple's key holds its value (null for a falsy value), every key
    addressing another object holds what it held before, and, in a
    category other than "app-state-sync-key" and the identifier "__proto__"
    not being asked for, [keys.get] binds the identifier of each triple
    asked for to that value. *)
Theorem keys_set_then_get_is_a_map :
  forall (fromObject : value -> result value) (config : S3Config)
         (data : SignalDataSet) (st : Store),
    NoDup (map (triple_location config) (triples data)) ->
    forallb (fun t => storable (snd t)) (triples data) = true ->
    (forall type id v,
        In (type, id, v) (triples data) ->
        stored_value config (fst (keys_set config data st)) (signal_key type id) = kept v)
    /\ (forall key,
          ~ In (location config key) (map (triple_location config) (triples data)) ->
          stored_value config (fst (keys_set config data st)) key
          = stored_value config st key)
    /\ (forall type id v ids,
          In (type, id, v) (triples data) ->
          type <> "app-state-sync-key" ->
          In id ids ->
          ~ In "__proto__" ids ->
          exists st' m,
            keys_get fromObject config type ids (fst (keys_set config data st))
            = (st', Ok m)
            /\ own m !! id = Some (kept v)).
Proof.
  intros fromObject config data st Hnd Hstorable.
  assert (Hown : forall type id v,
             In (type, id, v) (triples data) ->
             stored_value config (fst (keys_set config data st)) (signal_key type id)
             = kept v).
  { intros type id v Hin. unfold stored_value. rewrite store_keys_set_objects.
    pose proof (fold_apply_own config (triples data) (objects st) (type, id, v) Hnd Hin)
      as Hlook.
    unfold triple_location in Hlook at 1. cbn [fst snd] in Hlook. rewrite Hlook.
    rewrite forallb_forall in Hstorable. specialize (Hstorable _ Hin).
    unfold storable, kept in *. cbn [snd] in Hstorable.
    destruct (ToBoolean v); [|reflexivity].
    cbn [negb orb] in Hstorable. apply andb_true_iff in Hstorable as [Hs Hu].
    destruct (codec_round_trip v Hs Hu) as (s & Hstr & _). rewrite Hstr. cbn [default].
    exact (decoded_stringified v s Hs Hu Hstr). }
  split; [exact Hown|]. split.
  - intros key Hkey. unfold stored_value. rewrite store_keys_set_objects.
    rewrite fold_apply_elsewhere by exact Hkey. reflexivity.
  - intros type id v ids Hin Htype Hid Hproto.
    rewrite (store_keys_get fromObject config type Htype ids).
    rewrite assign_all_plain by (rewrite map_map, map_id; exact Hproto).
    eexists _, _. split; [reflexivity|]. cbn [own].
    rewrite lookup_fold_insert, decide_True by (apply list_elem_of_In; exact Hid).
    rewrite (Hown type id v Hin). reflexivity.
Qed.

(** X16 at a data set of two categories, with a falsy value among them. *)
Lemma keys_set_then_get_is_a_map_witness :
  exists st' m,
    keys_get always_throws sample_config "pre-key" ["2"; "1"]
      (fst (keys_set sample_config two_category_data empty_store)) = (st', Ok m)
    /\ own m !! "1" = Some foo_bar
    /\ stored_value sample_config
         (fst (keys_set sample_config two_category_data empty_store))
         (signal_key "pre-key" "2") = VNull
    /\ stored_value sample_config
         (fst (keys_set sample_config two_category_data empty_store))
         (signal_key "session" "a:b") = sender_key.
Proof.
  assert (Hnd : NoDup (map (triple_location sample_config) (triples two_category_data)))
    by (refine (bool_decide_unpack _ _); vm_compute; exact I).
  assert (Hstorable : forallb (fun t => storable (snd t)) (triples two_category_data)
                      = true) by (vm_compute; reflexivity).
  destruct (keys_set_then_get_is_a_map always_throws sample_config two_category_data
              empty_store Hnd Hstorable) as (Hown & _ & Hget).
  destruct (Hget "pre-key" "1" foo_bar ["2"; "1"]) as (st' & m & Hm & H1);
    [cbn; auto|discriminate|cbn; auto|cbn; intros [H|[H|[]]]; discriminate H|].
  exists st', m. split; [exact Hm|]. split; [exact H1|].
  split; [apply (Hown "pre-key" "2" (VNum 0))|apply (Hown "session" "a:b" sender_key)];
    cbn; auto.
Defined.

(** X17.  Initialisation never rejects and never writes: whatever the
    client answers, [useS3AuthState] resolves to a handle, in the world its
    one GetObject command for "creds.json" leaves; on the in-memory store
    it sends that one command and changes no object. *)
Theorem init_never_rejects_nor_writes :
  forall {C : Type} `{S3Client C} (initAuthCreds : unit -> value)
         (fromObject : value -> result value) (config : S3Config) (c : C) (st : Store),
    (exists h, useS3AuthState initAuthCreds fromObject config c
               = (fst (send (get_command config "creds.json") c), Ok h))
    /\ (exists h, useS3AuthState initAuthCreds fromObject config st
                  = ({| objects := objects st;
                        requests := requests st ++ [get_command config "creds.json"] |},
                     Ok h)).
Proof.
  intros C client initAuthCreds fromObject config c st. split.
  - unfold useS3AuthState, bind, resolve. rewrite readData_send.
    eexists. reflexivity.
  - unfold useS3AuthState, bind, resolve. rewrite store_readData.
    eexists. reflexivity.
Qed.

(** X18.  A fetch of "creds.json" that fails (for any reason, not only a
    missing object) makes initialisation take fresh default credentials:
    the handle's credentials are what the credential-initialisation routine
    returns. *)
Theorem failed_fetch_at_init_gives_defaults :
  forall {C : Type} `{S3Client C} (initAuthCreds : unit -> value)
         (fromObject : value -> result value) (config : S3Config) (c : C),
    is_rejected (snd (send (get_command config "creds.json") c)) = true ->
    exists h,
      snd (useS3AuthState initAuthCreds fromObject config c) = Ok h
      /\ creds (state h) = initAuthCreds tt.
Proof.
  intros C client initAuthCreds fromObject config c Hfail.
  unfold useS3AuthState, bind, resolve. rewrite readData_send.
  destruct (snd (send (get_command config "creds.json") c)); [discriminate|].
  eexists. split; reflexivity.
Qed.

(** X18 at an unreachable service. *)
Lemma failed_fetch_at_init_gives_defaults_witness :
  exists h,
    snd (useS3AuthState (fun _ => sample_creds Byte.x11) always_throws sample_config
           offline) = Ok h
    /\ creds (state h) = sample_creds Byte.x11.
Proof.
  apply (failed_fetch_at_init_gives_defaults (fun _ => sample_creds Byte.x11)
           always_throws sample_config offline).
  reflexivity.
Defined.

(** X19.  A stored "creds.json" from which nothing truthy is read (an empty
    body, malformed JSON, or the text of a falsy value such as null) is
    passed over: initialisation takes the default credentials, and
    [saveCreds] then replaces the stored object with them. *)
Theorem unreadable_creds_are_replaced :
  forall (initAuthCreds : unit -> value) (fromObject : value -> result value)
         (config : S3Config) (st : Store) (body : string),
    objects st !! location config "creds.json" = Some body ->
    unreadable body = true ->
    exists (st1 st2 : Store) (h : Handle),
      useS3AuthState initAuthCreds fromObject config st = (st1, Ok h)
      /\ creds (state h) = initAuthCreds tt
      /\ saveCreds h st1 = (st2, Ok tt)
      /\ objects st2 !! location config "creds.json"
         = Some (default "" (JSON_stringify (initAuthCreds tt))).
Proof.
  intros initAuthCreds fromObject config st body Hstored Hunreadable.
  assert (Hfalsy : ToBoolean (decoded body) = false).
  { unfold unreadable in Hunreadable. unfold decoded.
    destruct (String.eqb body ""); [reflexivity|]. cbn [orb negb] in *.
    destruct (JSON_parse body BufferJSON_reviver) as [v|e]; [|reflexivity].
    apply negb_true_iff. exact Hunreadable. }
  eexists _, _, _. split.
  { unfold useS3AuthState, bind, resolve. rewrite store_readData, Hstored, Hfalsy.
    reflexivity. }
  split; [reflexivity|].
  split; [cbn [saveCreds]; rewrite store_writeData; reflexivity|].
  cbn [objects]. apply lookup_insert_eq.
Qed.

(** X19 at a stored body that is malformed JSON. *)
Lemma unreadable_creds_are_replaced_witness :
  exists (st1 st2 : Store) (h : Handle),
    useS3AuthState (fun _ => sample_creds Byte.x11) always_throws sample_config
      (store_with sample_config "creds.json" "{") = (st1, Ok h)
    /\ creds (state h) = sample_creds Byte.x11
    /\ saveCreds h st1 = (st2, Ok tt)
    /\ objects st2 !! location sample_config "creds.json"
       = Some (default "" (JSON_stringify (sample_creds Byte.x11))).
Proof.
  assert (Hstored : objects (store_with sample_config "creds.json" "{")
                    !! location sample_config "creds.json" = Some "{")
    by reflexivity.
  assert (Hunreadable : unreadable "{" = true) by reflexivity.
  exact (unreadable_creds_are_replaced (fun _ => sample_creds Byte.x11) always_throws
           sample_config (store_with sample_config "creds.json" "{") "{"
           Hstored Hunreadable).
Defined.

(** X20.  Initialisation does not persist the default credentials: on a
    store without "creds.json", a second initialisation that follows the
    first with no [saveCreds] in between takes what the routine returns the
    second time, not the credentials of the first handle. *)
Theorem defaults_are_not_persisted_by_init :
  forall (initAuthCreds initAuthCreds' : unit -> value)
         (fromObject : value -> result value) (config : S3Config) (st : Store),
    objects st !! location config "creds.json" = None ->
    exists (st1 st2 : Store) (h1 h2 : Handle),
      useS3AuthState initAuthCreds fromObject config st = (st1, Ok h1)
      /\ useS3AuthState initAuthCreds' fromObject config st1 = (st2, Ok h2)
      /\ creds (state h1) = initAuthCreds tt
      /\ creds (state h2) = initAuthCreds' tt.
Proof.
  intros initAuthCreds initAuthCreds' fromObject config st Hfresh.
  eexists _, _, _, _. split.
  { unfold useS3AuthState, bind, resolve. rewrite store_readData, Hfresh.
    cbn [ToBoolean]. reflexivity. }
  split.
  { unfold useS3AuthState, bind, resolve. rewrite store_readData.
    cbn [objects]. rewrite Hfresh. cbn [ToBoolean]. reflexivity. }
  split; reflexivity.
Qed.

(** X20 on the empty store, the routine returning other credentials the
    second time. *)
Lemma defaults_are_not_persisted_by_init_witness :
  exists (st1 st2 : Store) (h1 h2 : Handle),
    useS3AuthState (fun _ => sample_creds Byte.x11) always_throws sample_config
      empty_store = (st1, Ok h1)
    /\ useS3AuthState (fun _ => sample_creds Byte.x77) always_throws sample_config st1
       = (st2, Ok h2)
    /\ creds (state h1) = sample_creds Byte.x11
    /\ creds (state h2) = sample_creds Byte.x77.
Proof.
  exact (defaults_are_not_persisted_by_init (fun _ => sample_creds Byte.x11)
           (fun _ => sample_creds Byte.x77) always_throws sample_config empty_store
           eq_refl).
Defined.

(** X21.  The identifier "__proto__" names no property of the object
    [keys.get] resolves to: asked for that identifier alone, in a category
    other than "app-state-sync-key" and whatever the client answers,
    [keys.get] resolves to an object without own properties, the assignment
    having gone to the prototype setter. *)
Theorem proto_identifier_makes_no_property :
  forall {C : Type} `{S3Client C} (fromObject : value -> result value)
         (config : S3Config) (type : string) (c : C),
    type <> "app-state-sync-key" ->
    exists (c' : C) (data : JSObject),
      keys_get fromObject config type ["__proto__"] c = (c', Ok data)
      /\ own data = ∅.
Proof.
  intros C client fromObject config type c Htype.
  destruct (get_tasks_fulfilled fromObject config type Htype ["__proto__"] c)
    as (entries & Hrs & Hids).
  unfold keys_get. unfold bind at 1. unfold Promise_all.
  destruct (settle _ c) as [c' rs]. cbn [snd] in Hrs. subst rs.
  rewrite gather_all_ok. unfold of_result.
  destruct entries as [|[k v] [|? ?]]; try discriminate Hids.
  cbn [map fst] in Hids. injection Hids as ->.
  unfold assign_all. cbn [fold_left fst snd].
  destruct (assign_proto_empty v) as [p ->].
  eexists _, _. split; reflexivity.
Qed.

(** X21 over a stored record, which becomes the prototype. *)
Lemma proto_identifier_makes_no_property_witness :
  exists (st' : Store) (data : JSObject),
    keys_get always_throws sample_config "session" ["__proto__"]
      (fst (writeData sample_config foo_bar "session-__proto__.json" empty_store))
    = (st', Ok data)
    /\ own data = ∅.
Proof.
  apply (proto_identifier_makes_no_property always_throws sample_config "session").
  discriminate.
Defined.
